(** * Fog detection and historical archive: a shallow embedding

    The development follows [src/fog-detector.ts] (landmark comparison,
    score classification, per-location analysis), the two [check-fog]
    entry points (region grouping, historical update, 7-day rollup, range
    metadata) and the history clean-up job.

    Modelling conventions.
    - A JavaScript [number] is an extended rational: [NaN], the two
      infinities, or an exact rational; every finite double is one, and
      comparisons and [Math.round] are exact on them.  The definitions
      outside [Binary64] also divide, multiply and subtract exactly;
      the definitions of the module [Binary64] round each of these
      operations to the nearest double, as the program does.
    - An instant (a [Date], or the ISO-8601 string that [toISOString]
      writes and [new Date] reads back) is its time value: integer
      milliseconds since the epoch.
    - An exception is [None]; a caught exception is written out where the
      source has its [try]/[catch].
    - The history directory is a finite map from file names to parsed
      file contents. *)

From Stdlib Require Import ZArith QArith Qround Lia Lqa String Ascii.
From Stdlib Require Import SpecFloat.
From stdpp Require Import gmap strings list fin_maps sorting.

Local Open Scope Z_scope.

(** ** JavaScript numbers *)

Inductive number : Type :=
  | NaN
  | NegInf
  | PosInf
  | Fin (q : Q).

Definition ofZ (z : Z) : number := Fin (inject_Z z).

(** [a - b] *)
Definition num_sub (a b : number) : number :=
  match a, b with
  | NaN, _ | _, NaN => NaN
  | Fin p, Fin q => Fin (p - q)
  | PosInf, PosInf | NegInf, NegInf => NaN
  | PosInf, _ | _, NegInf => PosInf
  | NegInf, _ | _, PosInf => NegInf
  end.

(** The sign of a rational, as a comparison with zero. *)
Definition Qsign (q : Q) : comparison := (q ?= 0)%Q.

(** [a * b] *)
Definition num_mul (a b : number) : number :=
  match a, b with
  | NaN, _ | _, NaN => NaN
  | Fin p, Fin q => Fin (p * q)
  | Fin p, PosInf | PosInf, Fin p =>
      match Qsign p with Eq => NaN | Gt => PosInf | Lt => NegInf end
  | Fin p, NegInf | NegInf, Fin p =>
      match Qsign p with Eq => NaN | Gt => NegInf | Lt => PosInf end
  | PosInf, PosInf | NegInf, NegInf => PosInf
  | PosInf, NegInf | NegInf, PosInf => NegInf
  end.

(** [a / b]; a zero divisor counts as positive zero. *)
Definition num_div (a b : number) : number :=
  match a, b with
  | NaN, _ | _, NaN => NaN
  | Fin p, Fin q =>
      match Qsign q with
      | Eq => match Qsign p with Eq => NaN | Gt => PosInf | Lt => NegInf end
      | _ => Fin (p / q)
      end
  | Fin _, (PosInf | NegInf) => Fin 0
  | (PosInf | NegInf), (PosInf | NegInf) => NaN
  | PosInf, Fin q => match Qsign q with Lt => NegInf | _ => PosInf end
  | NegInf, Fin q => match Qsign q with Lt => PosInf | _ => NegInf end
  end.

(** [a >= b]; every comparison with [NaN] is false. *)
Definition num_ge (a b : number) : bool :=
  match a, b with
  | NaN, _ | _, NaN => false
  | Fin p, Fin q => Qle_bool q p
  | PosInf, _ | _, NegInf => true
  | NegInf, _ | _, PosInf => false
  end.

(** The integer nearest to [q], a tie going towards plus infinity. *)
Definition round_half_up (q : Q) : Z := Qfloor (q + (1 # 2)).

(** [Math.round(a)] *)
Definition Math_round (a : number) : number :=
  match a with
  | Fin q => ofZ (round_half_up q)
  | _ => a
  end.

(** ** Data model ([types.ts]) *)

Inductive FogLevel : Type := clear | light | moderate | heavy.

#[global] Instance FogLevel_eq_dec : EqDecision FogLevel.
Proof. solve_decision. Defined.

Record Region : Type := mkRegion {
  x : Z;
  y : Z;
  width : Z;
  height : Z
}.

Record LandmarkTemplate : Type := mkLandmarkTemplate {
  lt_name : string;
  templatePath : string;
  lt_region : Region;
  threshold : Q
}.

Inductive WebcamSource : Type :=
  | image (url : string)
  | hls (url : string).

Record LocationConfig : Type := mkLocationConfig {
  lc_location : string;
  lc_region : string;
  source : WebcamSource;
  lc_landmarks : list LandmarkTemplate
}.

Record LandmarkDetail : Type := mkLandmarkDetail {
  name : string;
  visible : bool;
  similarity : number
}.

(** [region] is a string in [types.ts]; the object literal that
    [analyzeFogLevel] returns does not set it, so at run time it can be
    [undefined], which is [None] here. *)
Record VisibilityResult : Type := mkVisibilityResult {
  location : string;
  region : option string;
  landmarksVisible : Z;
  totalLandmarks : Z;
  visibilityScore : number;
  fogLevel : FogLevel;
  timestamp : Z;
  landmarkDetails : list LandmarkDetail
}.

(** ** VisibilityClassifier: [getFogLevel] *)

Definition getFogLevel (score : number) : FogLevel :=
  if num_ge score (ofZ 80) then clear
  else if num_ge score (ofZ 50) then light
  else if num_ge score (ofZ 20) then moderate
  else heavy.

(** ** RegionComparator: [checkLandmarkVisibility]

    The image pipeline ([sharp], [pngjs], [pixelmatch]), the config files
    and the image fetcher are outside the core; they are an interface
    whose operations can throw. *)

Class Collaborators : Type := {
  Buffer : Type;
  PNG : Type;
  (** [sharp(buf).extract(region).grayscale().normalize().png()], decoded *)
  extractRegion : Buffer -> Region -> option PNG;
  (** the stored template at a path, processed the same way and decoded *)
  loadTemplate : string -> option PNG;
  (** [pixelmatch(a, b, undefined, width, height, {threshold: 0.1})]:
      the number of mismatched pixels *)
  pixelmatch : PNG -> PNG -> Z -> Z -> option nat;
  (** [fs.readFile] and [JSON.parse] of a location's config file *)
  readConfig : string -> option LocationConfig;
  (** [fetchWebcamImage(source)] *)
  fetchWebcamImage : WebcamSource -> option Buffer
}.

Section Detector.
Context `{Collaborators}.

Definition checkLandmarkVisibility (webcamBuffer : Buffer)
    (landmark : LandmarkTemplate) : option (bool * number) :=
  let r := lt_region landmark in
  webcamImg ← extractRegion webcamBuffer r;
  templateImg ← loadTemplate (templatePath landmark);
  diff ← pixelmatch webcamImg templateImg (width r) (height r);
  let totalPixels := width r * height r in
  let similarity :=
    num_sub (ofZ 1) (num_div (ofZ (Z.of_nat diff)) (ofZ totalPixels)) in
  Some (num_ge similarity (Fin (threshold landmark)),
        num_div (Math_round (num_mul similarity (ofZ 100))) (ofZ 100)).

(** The loop of [analyzeFogLevel] over [config.landmarks], threading
    [visibleCount] and [landmarkDetails]; a throwing comparison ends it. *)
Fixpoint checkLandmarks (webcamBuffer : Buffer)
    (landmarks : list LandmarkTemplate) (visibleCount : Z)
    (details : list LandmarkDetail) : option (Z * list LandmarkDetail) :=
  match landmarks with
  | [] => Some (visibleCount, details)
  | landmark :: rest =>
      match checkLandmarkVisibility webcamBuffer landmark with
      | None => None
      | Some (vis, sim) =>
          checkLandmarks webcamBuffer rest
            (if vis then visibleCount + 1 else visibleCount)
            (details ++ [mkLandmarkDetail (lt_name landmark) vis sim])
      end
  end.

(** [now] is the clock reading of [new Date()].  The returned object has
    no [region] property: [config.region] is not copied into it. *)
Definition analyzeFogLevel (locationName : string) (now : Z)
    : option VisibilityResult :=
  config ← readConfig locationName;
  webcamBuffer ← fetchWebcamImage (source config);
  counted ← checkLandmarks webcamBuffer (lc_landmarks config) 0 [];
  let visibleCount := fst counted in
  let details := snd counted in
  let total := Z.of_nat (length (lc_landmarks config)) in
  let score := num_mul (num_div (ofZ visibleCount) (ofZ total)) (ofZ 100) in
  Some {| location := lc_location config;
          region := None;
          landmarksVisible := visibleCount;
          totalLandmarks := total;
          visibilityScore := Math_round score;
          fogLevel := getFogLevel score;
          timestamp := now;
          landmarkDetails := details |}.
End Detector.

(** ** The same two functions in binary64

    The arithmetic of the program: every quotient, product and
    difference is the double nearest to the exact result, ties to even,
    as [SpecFloat] of the Standard Library specifies it for a mantissa
    of 53 bits. *)

Module Binary64.

Definition double : Type := spec_float.
Definition prec : Z := 53.
Definition emax : Z := 1024.

(** The double of an integer: itself up to 2^53, the nearest beyond. *)
Definition ofInt (z : Z) : double := binary_normalize prec emax z 0 false.

(** The number that a double stands for, in lowest terms; both zeros
    stand for 0. *)
Definition value (x : double) : number :=
  match x with
  | S754_zero _ => Fin 0
  | S754_infinity s => if s then NegInf else PosInf
  | S754_nan => NaN
  | S754_finite s m e =>
      Fin (Qred (inject_Z (if s then Z.neg m else Z.pos m) * 2 ^ e))
  end.

Definition mul : double -> double -> double := SFmul prec emax.
Definition div : double -> double -> double := SFdiv prec emax.
Definition sub : double -> double -> double := SFsub prec emax.

(** [Math.round]: the nearest integer, a tie going up; no rounding error. *)
Definition round (x : double) : double :=
  match value x with
  | Fin q => ofInt (round_half_up q)
  | _ => x
  end.

(** The double that a decimal fraction [n/d] of a JSON file denotes. *)
Definition decimal (n d : Z) : Q :=
  match value (div (ofInt n) (ofInt d)) with
  | Fin q => q
  | _ => 0
  end.

Section Detector.
Context `{Collaborators}.

Definition checkLandmarkVisibility (webcamBuffer : Buffer)
    (landmark : LandmarkTemplate) : option (bool * number) :=
  let r := lt_region landmark in
  webcamImg ← extractRegion webcamBuffer r;
  templateImg ← loadTemplate (templatePath landmark);
  diff ← pixelmatch webcamImg templateImg (width r) (height r);
  let totalPixels := mul (ofInt (width r)) (ofInt (height r)) in
  let similarity := sub (ofInt 1) (div (ofInt (Z.of_nat diff)) totalPixels) in
  Some (num_ge (value similarity) (Fin (threshold landmark)),
        value (div (round (mul similarity (ofInt 100))) (ofInt 100))).

Fixpoint checkLandmarks (webcamBuffer : Buffer)
    (landmarks : list LandmarkTemplate) (visibleCount : Z)
    (details : list LandmarkDetail) : option (Z * list LandmarkDetail) :=
  match landmarks with
  | [] => Some (visibleCount, details)
  | landmark :: rest =>
      match checkLandmarkVisibility webcamBuffer landmark with
      | None => None
      | Some (vis, sim) =>
          checkLandmarks webcamBuffer rest
            (if vis then visibleCount + 1 else visibleCount)
            (details ++ [mkLandmarkDetail (lt_name landmark) vis sim])
      end
  end.

Definition analyzeFogLevel (locationName : string) (now : Z)
    : option VisibilityResult :=
  config ← readConfig locationName;
  webcamBuffer ← fetchWebcamImage (source config);
  counted ← checkLandmarks webcamBuffer (lc_landmarks config) 0 [];
  let visibleCount := fst counted in
  let details := snd counted in
  let total := Z.of_nat (length (lc_landmarks config)) in
  let score := mul (div (ofInt visibleCount) (ofInt total)) (ofInt 100) in
  Some {| location := lc_location config;
          region := None;
          landmarksVisible := visibleCount;
          totalLandmarks := total;
          visibilityScore := value (round score);
          fogLevel := getFogLevel (value score);
          timestamp := now;
          landmarkDetails := details |}.
End Detector.

End Binary64.

(** ** RegionAggregator: the [Map] of [main] in both [check-fog] scripts

    A JavaScript [Map] keeps its keys in order of first insertion; [set]
    on a key already present replaces the value where it stands. *)

Section JSMap.
Context {K V : Type} `{EqDecision K}.

Fixpoint Map_set (m : list (K * V)) (key : K) (value : V) : list (K * V) :=
  match m with
  | [] => [(key, value)]
  | (k, v) :: rest =>
      if decide (k = key) then (key, value) :: rest
      else (k, v) :: Map_set rest key value
  end.

(** [get]; the scripts do not call it, the properties are stated with it. *)
Fixpoint Map_get (m : list (K * V)) (key : K) : option V :=
  match m with
  | [] => None
  | (k, v) :: rest => if decide (k = key) then Some v else Map_get rest key
  end.
End JSMap.

Record RegionStatus : Type := mkRegionStatus {
  rs_region : option string;
  rs_fogLevel : FogLevel;
  rs_visibilityScore : number;
  rs_timestamp : Z;
  landmarks : list LandmarkDetail
}.

(** [for (const result of results) regionMap.set(result.region, result)] *)
Definition regionMap (results : list VisibilityResult)
    : list (option string * VisibilityResult) :=
  foldl (fun m result => Map_set m (region result) result) [] results.

(** The per-region records of [for (const [region, result] of
    regionMap.entries())], each with the key it is written under. *)
Definition regionEndpoints (results : list VisibilityResult)
    : list (option string * RegionStatus) :=
  map (fun entry : option string * VisibilityResult =>
         let (region, result) := entry in
         (region, {| rs_region := region;
                     rs_fogLevel := fogLevel result;
                     rs_visibilityScore := visibilityScore result;
                     rs_timestamp := timestamp result;
                     landmarks := landmarkDetails result |}))
      (regionMap results).

(** [Array.from(regionMap.values()).map(...)]: the flat collection. *)
Definition allRegions (results : list VisibilityResult) : list RegionStatus :=
  map (fun result =>
         {| rs_region := region result;
            rs_fogLevel := fogLevel result;
            rs_visibilityScore := visibilityScore result;
            rs_timestamp := timestamp result;
            landmarks := landmarkDetails result |})
      (map snd (regionMap results)).

(** ** HistoricalStore: data *)

Record RegionReading : Type := mkRegionReading {
  rr_fogLevel : FogLevel;
  rr_visibilityScore : number;
  rr_landmarksVisible : Z;
  rr_totalLandmarks : Z
}.

Record HistoricalReading : Type := mkHistoricalReading {
  hr_timestamp : Z;
  regions : gmap string RegionReading
}.

(** What a file of the history directory holds once read and parsed:
    text that [JSON.parse] rejects, a daily bucket [{hours: [...]}], or
    one of the two derived artifacts, which are JSON without [hours]. *)
Inductive File : Type :=
  | Unparseable
  | DailyFile (hours : list (option HistoricalReading))
  | RecentFile (readings : list HistoricalReading)
  | RangeFile (startDate endDate : string) (totalDays : nat) (lastUpdated : Z).

Definition SEVEN_DAYS_MS : Z := 7 * 24 * 60 * 60 * 1000.
Definition TWO_YEARS_MS : Z := 2 * 365 * 24 * 60 * 60 * 1000.

(** ** Strings, dates and arrays of the JavaScript runtime *)

(** [\d] *)
Definition isDigit (c : ascii) : bool :=
  (48 <=? nat_of_ascii c)%nat && (nat_of_ascii c <=? 57)%nat.

Definition isDash (c : ascii) : bool := Ascii.eqb c "-".

(** [/^\d{4}-\d{2}-\d{2}$/.test(f)] *)
Definition isDateKey (f : string) : bool :=
  match list_ascii_of_string f with
  | [y1; y2; y3; y4; s1; m1; m2; s2; d1; d2] =>
      isDigit y1 && isDigit y2 && isDigit y3 && isDigit y4 && isDash s1
      && isDigit m1 && isDigit m2 && isDash s2 && isDigit d1 && isDigit d2
  | _ => false
  end.

(** [new Date(f).getTime()] for a string [f]; [None] is [NaN].  Which
    strings an engine accepts beyond well-formed calendar dates is left
    to the engine. *)
Class DateParser : Type := Date_getTime : string -> option Z.

Definition MS_PER_DAY : Z := 86400000.
Definition MS_PER_HOUR : Z := 3600000.

(** [date.getUTCHours()] *)
Definition getUTCHours (t : Z) : nat := Z.to_nat ((t / MS_PER_HOUR) mod 24).

(** The proleptic Gregorian date of a day number (days since the epoch). *)
Definition civil_from_days (days : Z) : Z * Z * Z :=
  let z := days + 719468 in
  let era := z / 146097 in
  let doe := z - era * 146097 in
  let yoe := (doe - doe / 1460 + doe / 36524 - doe / 146096) / 365 in
  let doy := doe - (365 * yoe + yoe / 4 - yoe / 100) in
  let mp := (5 * doy + 2) / 153 in
  let d := doy - (153 * mp + 2) / 5 + 1 in
  let m := if mp <? 10 then mp + 3 else mp - 9 in
  (yoe + era * 400 + (if m <=? 2 then 1 else 0), m, d).

Definition digitChar (n : Z) : ascii :=
  match n mod 10 with
  | 0 => "0" | 1 => "1" | 2 => "2" | 3 => "3" | 4 => "4"
  | 5 => "5" | 6 => "6" | 7 => "7" | 8 => "8" | _ => "9"
  end%char.

(** The last [k] decimal digits of [n], in front of [acc]. *)
Fixpoint zeroPad (k : nat) (n : Z) (acc : string) : string :=
  match k with
  | O => acc
  | S k' => zeroPad k' (n / 10) (String (digitChar n) acc)
  end.

(** Four digits for the years 0 to 9999, else a sign and six digits. *)
Definition isoYear (year : Z) : string :=
  if (0 <=? year) && (year <=? 9999) then zeroPad 4 year ""
  else String (if 0 <=? year then "+"%char else "-"%char)
              (zeroPad 6 (Z.abs year) "").

(** [new Date(t).toISOString().split("T")[0]], for a valid time value [t] *)
Definition toISODate (t : Z) : string :=
  let '(year, month, day) := civil_from_days (t / MS_PER_DAY) in
  isoYear year +:+ "-" +:+ zeroPad 2 month "" +:+ "-" +:+ zeroPad 2 day "".

(** [arr[i] = v] on an array: past the end the array grows, and the
    holes in between are written out as [null]. *)
Definition array_set {A : Type} (arr : list (option A)) (i : nat) (v : A)
    : list (option A) :=
  if decide (i < length arr)%nat then <[i := Some v]> arr
  else arr ++ replicate (i - length arr) None ++ [Some v].

(** [arr.filter(r => r !== null)] *)
Definition validReadings {A : Type} (arr : list (option A)) : list A :=
  omap id arr.

(** A stable insertion sort: [Array.prototype.sort] with a comparator
    that is a total preorder given by [leb]. *)
Section Sort.
Context {A : Type} (leb : A -> A -> bool).

Fixpoint sort_insert (a : A) (l : list A) : list A :=
  match l with
  | [] => [a]
  | b :: l' => if leb a b then a :: l else b :: sort_insert a l'
  end.

Definition Array_sort (l : list A) : list A := foldr sort_insert [] l.
End Sort.

(** [files.sort()]: by code units. *)
Definition sortStrings : list string -> list string := Array_sort String.leb.

(** [allReadings.sort((a, b) => time(a) - time(b))] *)
Definition sortByTimestamp : list HistoricalReading -> list HistoricalReading :=
  Array_sort (fun a b => hr_timestamp a <=? hr_timestamp b).

(** [fs.readdir(HISTORY_DIR)]; the order of the listing is the map's. *)
Definition readdir (dir : gmap string File) : list string :=
  (map_to_list dir).*1.

(** ** HistoricalStore: operations of [check-fog] *)

Section Store.
Context `{DateParser}.

(** [updateHistoricalRange]; the artifact is named [index] by
    [check-fog] and [range] by the clean-up job.  With no date-named
    file nothing is written. *)
Definition updateHistoricalRange (artifact : string) (now : Z)
    (dir : gmap string File) : gmap string File :=
  let dateFiles := sortStrings (filter (fun f => isDateKey f) (readdir dir)) in
  match dateFiles with
  | [] => dir
  | startDate :: _ =>
      <[artifact := RangeFile startDate (List.last dateFiles startDate)
                      (length dateFiles) now]> dir
  end.

(** [new Date(f).getTime() >= cutoffTime]; false when the time is [NaN]. *)
Definition notBefore (cutoffTime : Z) (f : string) : bool :=
  match Date_getTime f with
  | Some t => cutoffTime <=? t
  | None => false
  end.

(** [fs.readFile], [JSON.parse] and [data.hours] for one daily file;
    [None] when any of the three throws. *)
Definition readHours (dir : gmap string File) (file : string)
    : option (list (option HistoricalReading)) :=
  match dir !! file with
  | Some (DailyFile hours) => Some hours
  | _ => None
  end.

(** The loop of [generateRecentFile] over [recentFiles]. *)
Fixpoint collectReadings (dir : gmap string File) (recentFiles : list string)
    (allReadings : list HistoricalReading) : option (list HistoricalReading) :=
  match recentFiles with
  | [] => Some allReadings
  | file :: rest =>
      match readHours dir file with
      | None => None
      | Some hours =>
          collectReadings dir rest (allReadings ++ validReadings hours)
      end
  end.

Definition recentFiles (now : Z) (dir : gmap string File) : list string :=
  let cutoffTime := now - SEVEN_DAYS_MS in
  sortStrings
    (filter (fun f => notBefore cutoffTime f)
       (filter (fun f => isDateKey f) (readdir dir))).

(** The body of the [try] block up to the write: the sorted readings,
    or [None] when something in it throws. *)
Definition recentReadings (now : Z) (dir : gmap string File)
    : option (list HistoricalReading) :=
  allReadings ← collectReadings dir (recentFiles now dir) [];
  Some (sortByTimestamp allReadings).

(** [generateRecentFile]: the [catch] logs, and nothing is written. *)
Definition generateRecentFile (now : Z) (dir : gmap string File)
    : gmap string File :=
  match recentReadings now dir with
  | Some readings => <["recent" := RecentFile readings]> dir
  | None => dir
  end.

(** A property key is a string: [undefined] names the key
    ["undefined"]. *)
Definition propertyKey (k : option string) : string := default "undefined" k.

(** [object[key] = value] on a plain object, for a [value] that is an
    object: the key [__proto__] names the prototype of [object], and
    the assignment stores no property. *)
Definition setProperty {V : Type} (object : gmap string V) (key : string)
    (value : V) : gmap string V :=
  if String.eqb key "__proto__" then object else <[key := value]> object.

(** The reading that [updateHistoricalData] builds from [results]. *)
Definition newReading (results : list VisibilityResult) (now : Z)
    : HistoricalReading :=
  let timestamp := match results with
                   | first :: _ => timestamp first
                   | [] => now
                   end in
  {| hr_timestamp := timestamp;
     regions :=
       foldl (fun regions result =>
                setProperty regions (propertyKey (region result))
                  {| rr_fogLevel := fogLevel result;
                     rr_visibilityScore := visibilityScore result;
                     rr_landmarksVisible := landmarksVisible result;
                     rr_totalLandmarks := totalLandmarks result |})
             ∅ results |}.

(** The existing daily file, or 24 empty slots when reading or parsing
    it throws; [None] stands for a parsed value without [hours]. *)
Definition loadDaily (dir : gmap string File) (dailyFile : string)
    : option (list (option HistoricalReading)) :=
  match dir !! dailyFile with
  | None | Some Unparseable => Some (replicate 24 None)
  | Some (DailyFile hours) => Some hours
  | Some _ => None
  end.

(** [updateHistoricalData(results)].  [history] is [None] while the
    directory does not exist; [mkdir] creates it.  The result is [None]
    when the assignment to [dailyData.hours[hour]] throws. *)
Definition updateHistoricalData (results : list VisibilityResult) (now : Z)
    (history : option (gmap string File)) : option (gmap string File) :=
  let dir := default ∅ history in
  let reading := newReading results now in
  let dateString := toISODate (hr_timestamp reading) in
  hours ← loadDaily dir dateString;
  let hour := getUTCHours (hr_timestamp reading) in
  let dir := <[dateString := DailyFile (array_set hours hour reading)]> dir in
  let dir := generateRecentFile now dir in
  Some (updateHistoricalRange "index" now dir).

(** ** The clean-up job *)

Record Cleanup : Type := mkCleanup {
  cl_dir : gmap string File;
  deleted : list string;
  keptCount : nat
}.

(** One round of the loop over [files]. *)
Definition cleanupStep (cutoffTime : Z) (st : Cleanup) (file : string)
    : Cleanup :=
  if negb (isDateKey file) then st
  else match Date_getTime file with
       | Some t =>
           if t <? cutoffTime
           then {| cl_dir := delete file (cl_dir st);
                   deleted := deleted st ++ [file];
                   keptCount := keptCount st |}
           else {| cl_dir := cl_dir st;
                   deleted := deleted st;
                   keptCount := S (keptCount st) |}
       | None => {| cl_dir := cl_dir st;
                    deleted := deleted st;
                    keptCount := S (keptCount st) |}
       end.

(** [main] of the clean-up job: the directory afterwards and the names
    it deleted.  A missing directory ([ENOENT]) is left alone. *)
Definition cleanup (now : Z) (history : option (gmap string File))
    : option (gmap string File) * list string :=
  match history with
  | None => (None, [])
  | Some dir =>
      let files := readdir dir in
      let cutoffTime := now - TWO_YEARS_MS in
      let st := foldl (cleanupStep cutoffTime) (mkCleanup dir [] 0) files in
      let deletedCount := length (deleted st) in
      if (0 <? deletedCount)%nat || (0 <? keptCount st)%nat
      then (Some (updateHistoricalRange "range" now (cl_dir st)), deleted st)
      else (Some (cl_dir st), deleted st)
  end.
End Store.

(** ** The run orchestrators: [main] of the [check-fog] scripts *)

(** [s] without its ending [suffix], when it ends with it. *)
Fixpoint stripSuffix (suffix s : string) : option string :=
  if String.eqb s suffix then Some ""%string
  else match s with
       | EmptyString => None
       | String c s' => String c <$> stripSuffix suffix s'
       end.

(** [s.endsWith(suffix)] *)
Definition endsWith (s suffix : string) : bool :=
  match stripSuffix suffix s with Some _ => true | None => false end.

(** [path.basename(file, ext)] for a directory entry, which holds no
    separator: a non-empty [ext] that ends the name is cut off. *)
Definition basename (file ext : string) : string :=
  if String.eqb ext "" then file
  else default file (stripSuffix ext file).

(** [files.filter((f) => f.endsWith(".json") && f !== ".gitkeep")] *)
Definition locationFiles (files : list string) : list string :=
  filter (fun f => endsWith f ".json" && negb (String.eqb f ".gitkeep")) files.

Record Prediction : Type := mkPrediction {
  estimatedClearTime : option string;
  hoursUntilClear : option number;
  confidence : number;
  basedOnSamples : number;
  pr_message : string
}.

Record StatusNow : Type := mkStatusNow {
  sn_fogLevel : FogLevel;
  sn_visibilityScore : number;
  sn_timestamp : Z
}.

Record CurrentStatus : Type := mkCurrentStatus {
  cs_location : string;
  currentStatus : StatusNow;
  prediction : option Prediction
}.

(** A file of [api/regions] (or, for the first script, of [api]): one
    region's record, or the collection of all of them. *)
Inductive ApiFile : Type :=
  | StatusFile (status : RegionStatus)
  | CollectionFile (all : list RegionStatus).

Record Api : Type := mkApi {
  regionsDir : gmap string ApiFile;
  historyDir : option (gmap string File)
}.

(** A plain file name of a POSIX directory: not empty, not [.] or [..],
    without separator and null character, of at most 255 bytes. *)
Definition plainName (name : string) : bool :=
  negb (String.eqb name "") && negb (String.eqb name ".")
  && negb (String.eqb name "..")
  && forallb (fun c => negb (Ascii.eqb c "/") && negb (Ascii.eqb c zero))
       (list_ascii_of_string name)
  && (String.length name <=? 255)%nat.

(** The loop that writes one file per entry of the region map.
    [path.join(dir, region)] throws on a region that is [undefined].  For
    a plain name it is the file of that name in [dir].  For the empty
    name, [.] and [..] it is a directory, and for a name with a
    separator a path through a subdirectory, which [dir] does not have:
    [writeFile] throws, as it does on a null character and on a name
    that is too long.  (A path that [..] leads out of [dir] and into
    another directory is outside the model.)  When an exception ends the
    loop the files written so far stay, and the flag is [false]. *)
Fixpoint writeRegions (entries : list (option string * RegionStatus))
    (dir : gmap string ApiFile) : gmap string ApiFile * bool :=
  match entries with
  | [] => (dir, true)
  | (None, _) :: _ => (dir, false)
  | (Some region, regionStatus) :: rest =>
      if plainName region
      then writeRegions rest (<[region := StatusFile regionStatus]> dir)
      else (dir, false)
  end.

(** The region files and then the collection, which the first script
    names [all] and the second [index]. *)
Definition publishRegions (collection : string)
    (results : list VisibilityResult) (dir : gmap string ApiFile)
    : gmap string ApiFile * bool :=
  let written := writeRegions (regionEndpoints results) dir in
  if written.2
  then (<[collection := CollectionFile (allRegions results)]> written.1, true)
  else written.

Section Orchestrators.
Context `{Collaborators} `{DateParser}.

(** The loop over [locationFiles]: a location whose analysis throws is
    logged and left out.  [clock file] is the time that the analysis of
    [file] reads off [new Date()]. *)
Fixpoint collectResults (files : list string) (clock : string -> Z)
    (results : list VisibilityResult) : list VisibilityResult :=
  match files with
  | [] => results
  | file :: rest =>
      let locationName := basename file ".json" in
      match analyzeFogLevel locationName (clock file) with
      | Some result => collectResults rest clock (results ++ [result])
      | None => collectResults rest clock results
      end
  end.

(** [results.map((r) => ({location, currentStatus, prediction: null}))] *)
Definition currentStatuses (results : list VisibilityResult)
    : list CurrentStatus :=
  map (fun r => {| cs_location := location r;
                   currentStatus := {| sn_fogLevel := fogLevel r;
                                       sn_visibilityScore := visibilityScore r;
                                       sn_timestamp := timestamp r |};
                   prediction := None |})
      results.

(** [main] of the script that writes [api/current.json]: the content of
    that file afterwards ([None] while it does not exist), given the
    listing of the locations directory. *)
Definition mainCurrent (files : list string) (clock : string -> Z)
    (current : option (list CurrentStatus)) : option (list CurrentStatus) :=
  match locationFiles files with
  | [] => current
  | locations => Some (currentStatuses (collectResults locations clock []))
  end.

(** [main] of the first region script: files of [api], collection [all]. *)
Definition mainRegions (files : list string) (clock : string -> Z)
    (dir : gmap string ApiFile) : gmap string ApiFile * bool :=
  match locationFiles files with
  | [] => (dir, true)
  | locations => publishRegions "all" (collectResults locations clock []) dir
  end.

(** What [main] of [check-fog] does with the results: the files of
    [api/regions], the collection [index], then the history, which
    [mkdir] creates.  The flag is [false] when an exception ends it. *)
Definition writeResults (results : list VisibilityResult) (now : Z)
    (api : Api) : Api * bool :=
  let published := publishRegions "index" results (regionsDir api) in
  if published.2
  then match updateHistoricalData results now (historyDir api) with
       | Some history =>
           ({| regionsDir := published.1; historyDir := Some history |}, true)
       | None =>
           ({| regionsDir := published.1;
               historyDir := Some (default ∅ (historyDir api)) |},
            false)
       end
  else ({| regionsDir := published.1; historyDir := historyDir api |}, false).

(** [main] of [check-fog] with the historical update; [now] is the time
    of the historical update. *)
Definition checkFog (files : list string) (clock : string -> Z) (now : Z)
    (api : Api) : Api * bool :=
  match locationFiles files with
  | [] => (api, true)
  | locations => writeResults (collectResults locations clock []) now api
  end.
End Orchestrators.

(** ** The history extracted from git *)

(** [s.split(sep)] for a separator of one character. *)
Fixpoint split (sep : ascii) (s : string) : list string :=
  match s with
  | EmptyString => [EmptyString]
  | String c s' =>
      if Ascii.eqb c sep then EmptyString :: split sep s'
      else match split sep s' with
           | first :: rest => String c first :: rest
           | [] => [String c EmptyString]
           end
  end.

(** [s.includes(sub)] *)
Definition includes (s sub : string) : bool :=
  match index 0 sub s with Some _ => true | None => false end.

(** [timestamp] is [undefined] for a line without a separator. *)
Record CommitInfo : Type := mkCommitInfo {
  hash : string;
  ci_timestamp : option string;
  message : string
}.

(** [const [hash, timestamp, ...messageParts] = line.split("|")] *)
Definition parseCommitLine (line : string) : CommitInfo :=
  let parts := split "|" line in
  {| hash := default EmptyString (head parts);
     ci_timestamp := head (tail parts);
     message := String.concat "|" (tail (tail parts)) |}.

(** [getApiCommits], from the lines of the trimmed output of [git log]. *)
Definition getApiCommits (lines : list string) : list CommitInfo :=
  map parseCommitLine
    (filter (fun line => includes line "Update fog conditions") lines).

(** [git show] of [api/all] at a commit, parsed: the outer [None] is a
    failing [git show], the inner one content that [JSON.parse] or the
    loop over its regions rejects. *)
Class GitRepo : Type :=
  allAtCommit : string -> option (option (list RegionStatus)).

(** The reading built from the regions of one commit's [api/all]. *)
Definition readingOfCommit (t : Z) (data : list RegionStatus)
    : HistoricalReading :=
  {| hr_timestamp := t;
     regions :=
       foldl (fun regions region =>
                setProperty regions (propertyKey (rs_region region))
                  {| rr_fogLevel := rs_fogLevel region;
                     rr_visibilityScore := rs_visibilityScore region;
                     rr_landmarksVisible :=
                       Z.of_nat (length (filter (fun l => visible l = true)
                                           (landmarks region)));
                     rr_totalLandmarks :=
                       Z.of_nat (length (landmarks region)) |})
             ∅ data |}.

Section Extraction.
Context `{DateParser} `{GitRepo}.

(** The loop over the commits, threading [dailyReadings], a map from
    date keys to maps from hours to readings.  [None]: [toISOString]
    throws on a timestamp that is no date. *)
Fixpoint groupCommits (commits : list CommitInfo)
    (dailyReadings : list (string * list (nat * HistoricalReading)))
    : option (list (string * list (nat * HistoricalReading))) :=
  match commits with
  | [] => Some dailyReadings
  | commit :: rest =>
      match ci_timestamp commit ≫= Date_getTime with
      | None => None
      | Some t =>
          let dateString := toISODate t in
          let hour := getUTCHours t in
          match allAtCommit (hash commit) with
          | None | Some None => groupCommits rest dailyReadings
          | Some (Some data) =>
              let reading := readingOfCommit t data in
              let hours := default [] (Map_get dailyReadings dateString) in
              groupCommits rest
                (Map_set dailyReadings dateString (Map_set hours hour reading))
          end
      end
  end.

(** The daily file of one date: 24 empty slots, then the hours at hand. *)
Definition dailyOf (hours : list (nat * HistoricalReading)) : File :=
  DailyFile (foldl (fun arr entry => array_set arr entry.1 entry.2)
               (replicate 24 None) hours).

(** [extractHistoricalData]: the history directory afterwards. *)
Definition extractHistoricalData (lines : list string)
    (history : option (gmap string File)) : option (gmap string File) :=
  dailyReadings ← groupCommits (getApiCommits lines) [];
  Some (foldl (fun dir entry => <[entry.1 := dailyOf entry.2]> dir)
          (default ∅ history) dailyReadings).

(** [main] of the extraction: the daily files, then the index. *)
Definition extractHistory (lines : list string) (now : Z)
    (history : option (gmap string File)) : option (gmap string File) :=
  dir ← extractHistoricalData lines history;
  Some (updateHistoricalRange "index" now dir).
End Extraction.

(** ** The migration to [api/regions] *)

Definition migrations : list (string * string) :=
  [("golden-gate", "regions/golden-gate");
   ("downtown", "regions/downtown");
   ("all", "regions/index")]%string.

(** One round of the loop: [access], [copyFile], [unlink]; a missing file
    is skipped. *)
Definition migrateOne {A : Type} (api : gmap string A)
    (migration : string * string) : gmap string A :=
  match api !! migration.1 with
  | Some content => delete migration.1 (<[migration.2 := content]> api)
  | None => api
  end.

(** [migrateCurrentEndpoints]: [api] maps the paths under [api/] to the
    content of the files. *)
Definition migrateCurrentEndpoints {A : Type} (api : gmap string A)
    : gmap string A :=
  foldl migrateOne api migrations.

(** ** A concrete runtime, for running the definitions on examples *)

Definition digitValue (c : ascii) : Z := Z.of_nat (nat_of_ascii c) - 48.

(** The day number of a proleptic Gregorian date. *)
Definition days_from_civil (year month day : Z) : Z :=
  let y := if month <=? 2 then year - 1 else year in
  let era := y / 400 in
  let yoe := y - era * 400 in
  let mp := if 2 <? month then month - 3 else month + 9 in
  let doy := (153 * mp + 2) / 5 + day - 1 in
  let doe := yoe * 365 + yoe / 4 - yoe / 100 + doy in
  era * 146097 + doe - 719468.

Definition isLeapYear (year : Z) : bool :=
  ((year mod 4 =? 0) && negb (year mod 100 =? 0)) || (year mod 400 =? 0).

Definition daysInMonth (year month : Z) : Z :=
  if month =? 2 then (if isLeapYear year then 29 else 28)
  else if (month =? 4) || (month =? 6) || (month =? 9) || (month =? 11) then 30
  else 31.

(** A date parser that accepts exactly the calendar dates written
    [YYYY-MM-DD], as midnight UTC. *)
Definition parseCalendarDate (f : string) : option Z :=
  match list_ascii_of_string f with
  | [y1; y2; y3; y4; _; m1; m2; _; d1; d2] =>
      let year := digitValue y1 * 1000 + digitValue y2 * 100
                  + digitValue y3 * 10 + digitValue y4 in
      let month := digitValue m1 * 10 + digitValue m2 in
      let day := digitValue d1 * 10 + digitValue d2 in
      if isDateKey f && (1 <=? month) && (month <=? 12)
         && (1 <=? day) && (day <=? daysInMonth year month)
      then Some (days_from_civil year month day * MS_PER_DAY)
      else None
  | _ => None
  end.

Definition calendarDates : DateParser := parseCalendarDate.

(** Images of one row of grey levels: a region is cut out by its [x] and
    [width], and two pixels mismatch when they differ by more than 25. *)
Definition rowExtract (buf : list Z) (r : Region) : option (list Z) :=
  if (0 <=? x r) && (0 <? width r) && (height r =? 1)
     && (x r + width r <=? Z.of_nat (length buf))
  then Some (take (Z.to_nat (width r)) (drop (Z.to_nat (x r)) buf))
  else None.

Fixpoint rowMismatches (a b : list Z) : nat :=
  match a, b with
  | p :: a', q :: b' =>
      let rest := rowMismatches a' b' in
      if 25 <? Z.abs (p - q) then S rest else rest
  | _, _ => O
  end.

Definition rowPixelmatch (a b : list Z) (w h : Z) : option nat :=
  if (Z.of_nat (length a) =? w * h) && (Z.of_nat (length b) =? w * h)
  then Some (rowMismatches a b)
  else None.

Definition rowImages (templates : gmap string (list Z))
    (configs : gmap string LocationConfig) (webcam : list Z) : Collaborators :=
  {| Buffer := list Z;
     PNG := list Z;
     extractRegion := rowExtract;
     loadTemplate := fun path => templates !! path;
     pixelmatch := rowPixelmatch;
     readConfig := fun locationName => configs !! locationName;
     fetchWebcamImage := fun _ => Some webcam |}.

(** A two-pixel scene: the live image matches the stored template in one
    pixel of two, so the raw similarity of every landmark is one half. *)
Definition halfRegion : Region := {| x := 0; y := 0; width := 2; height := 1 |}.

Definition halfLandmark (t : Q) : LandmarkTemplate :=
  {| lt_name := "tower"; templatePath := "tower.png";
     lt_region := halfRegion; threshold := t |}.

Definition halfScene (visibleLandmarks hiddenLandmarks : nat) : Collaborators :=
  rowImages {[ "tower.png" := [0; 255] ]}
    {[ "marina" :=
         {| lc_location := "marina";
            lc_region := "golden-gate";
            source := image "https://example.com/cam.jpg";
            lc_landmarks :=
              replicate visibleLandmarks (halfLandmark (1 # 2))
              ++ replicate hiddenLandmarks (halfLandmark (7 # 10)) |} ]}
    [0; 0].




(** A scene of 40 pixels of which 17 mismatch: the share of matching
    pixels is 23/40 = 0.575. *)
Definition gateRegion : Region :=
  {| x := 0; y := 0; width := 40; height := 1 |}.

Definition gateLandmark (t : Q) : LandmarkTemplate :=
  {| lt_name := "gate"; templatePath := "gate.png";
     lt_region := gateRegion; threshold := t |}.

Definition gateScene : Collaborators :=
  rowImages {[ "gate.png" := replicate 17 255 ++ replicate 23 0 ]}
    ∅ (replicate 40 0).

(** Readings and a small history directory. *)
Definition readingAt (t : Z) (level : FogLevel) (score : Z) : HistoricalReading :=
  {| hr_timestamp := t;
     regions := {[ "golden-gate" :=
                     {| rr_fogLevel := level; rr_visibilityScore := ofZ score;
                        rr_landmarksVisible := 1; rr_totalLandmarks := 3 |} ]} |}.

Definition resultAt (t : Z) (key : string) (level : FogLevel) (score : Z)
    : VisibilityResult :=
  {| location := "marina"; region := Some key; landmarksVisible := 1;
     totalLandmarks := 3; visibilityScore := ofZ score; fogLevel := level;
     timestamp := t; landmarkDetails := [] |}.

(** 2024-01-01T00:00:00.000Z *)
Definition jan1 : Z := 1704067200000.

Definition hourOf (day hour : Z) : Z := jan1 + day * MS_PER_DAY + hour * MS_PER_HOUR.

(** Buckets for 1, 5 and 6 January 2024; the one for 6 January is corrupt. *)
Definition januaryDir : gmap string File :=
  {[ "2024-01-01" := DailyFile (array_set (replicate 24 None) 9
                                  (readingAt (hourOf 0 9) heavy 0));
     "2024-01-05" := DailyFile (array_set
                                  (array_set (replicate 24 None) 14
                                     (readingAt (hourOf 4 14) light 67))
                                  3 (readingAt (hourOf 4 3) moderate 33));
     "2024-01-06" := Unparseable;
     "recent" := RecentFile [] ]}.

(** Noon of 7 January 2024: the window opens at noon of 31 December. *)
Definition jan7noon : Z := hourOf 6 12.

(** Two checks within the hour from 14:00 on 5 January 2024. *)
Definition firstCheck : list VisibilityResult :=
  [resultAt (hourOf 4 14 + 300000) "golden-gate" clear 100].
Definition secondCheck : list VisibilityResult :=
  [resultAt (hourOf 4 14 + 2400000) "golden-gate" heavy 0].

(** Noon of 4 January 2026: two years of 365 days after noon of 4 January
    2024, so that only the bucket of 1 January 2024 is expired. *)
Definition jan2026 : Z := hourOf (2 * 365 + 3) 12.

(** ** Predicates used to state the properties *)

Definition countVisible (details : list LandmarkDetail) : Z :=
  Z.of_nat (length (filter (fun d => visible d = true) details)).

Definition inRegion (key : option string) (r : VisibilityResult) : Prop :=
  region r = key.

#[global] Instance inRegion_dec key r : Decision (inRegion key r).
Proof. unfold inRegion. apply _. Defined.

(** The record that both artifacts hold for a winning result. *)
Definition statusOf (result : VisibilityResult) : RegionStatus :=
  {| rs_region := region result;
     rs_fogLevel := fogLevel result;
     rs_visibilityScore := visibilityScore result;
     rs_timestamp := timestamp result;
     landmarks := landmarkDetails result |}.

Section Windows.
Context `{DateParser}.

(** A file name is in the window when it is a date key whose date is
    not more than seven days before [now]. *)
Definition inWindow (now : Z) (f : string) : Prop :=
  isDateKey f = true
  /\ exists t, Date_getTime f = Some t /\ now - 7 * 24 * 60 * 60 * 1000 <= t.

(** The readings of one bucket, in slot order. *)
Definition bucketReadings (dir : gmap string File) (f : string)
    : list HistoricalReading :=
  validReadings (default [] (readHours dir f)).

(** A file name is expired when it is a date key whose date is strictly
    earlier than the cut-off. *)
Definition expired (cutoffTime : Z) (f : string) : Prop :=
  isDateKey f = true
  /\ exists t, Date_getTime f = Some t /\ t < cutoffTime.

#[global] Instance expired_dec cutoffTime f : Decision (expired cutoffTime f).
Proof.
  unfold expired. destruct (Date_getTime f) as [t|].
  - destruct (decide (isDateKey f = true /\ t < cutoffTime)) as [Hy|Hn].
    + left. destruct Hy. split; [done|]. by exists t.
    + right. intros [? (t' & [= <-] & ?)]. by apply Hn.
  - right. by intros [_ (t & ? & _)].
Defined.

Definition retained (cutoffTime : Z) (f : string) : Prop :=
  isDateKey f = true /\ ~ expired cutoffTime f.

(** The date-named files, as [updateHistoricalRange] lists them. *)
Definition dateFiles (dir : gmap string File) : list string :=
  sortStrings (filter (fun f => isDateKey f) (readdir dir)).
End Windows.

(** ** More predicates used to state the properties *)

(** The entry that a reading holds for one result. *)
Definition readingOf (result : VisibilityResult) : RegionReading :=
  {| rr_fogLevel := fogLevel result;
     rr_visibilityScore := visibilityScore result;
     rr_landmarksVisible := landmarksVisible result;
     rr_totalLandmarks := totalLandmarks result |}.

(** Every daily bucket has 24 slots, and a reading sits in the file of
    its UTC date at the slot of its UTC hour. *)
Definition wellPlaced (dir : gmap string File) : Prop :=
  forall f hours, dir !! f = Some (DailyFile hours) ->
    length hours = 24%nat
    /\ forall h r, hours !! h = Some (Some r) ->
         toISODate (hr_timestamp r) = f /\ getUTCHours (hr_timestamp r) = h.

(** The date, the hour and the reading that one commit of the log
    contributes to the extracted history, if it contributes. *)
Definition commitReading `{DateParser} `{GitRepo} (commit : CommitInfo)
    : option (string * nat * HistoricalReading) :=
  match ci_timestamp commit ≫= Date_getTime, allAtCommit (hash commit) with
  | Some t, Some (Some data) =>
      Some (toISODate t, getUTCHours t, readingOfCommit t data)
  | _, _ => None
  end.

(** One round of the loop of [extractHistoricalData] on a contribution. *)
Definition groupStep
    (dailyReadings : list (string * list (nat * HistoricalReading)))
    (found : string * nat * HistoricalReading)
    : list (string * list (nat * HistoricalReading)) :=
  Map_set dailyReadings found.1.1
    (Map_set (default [] (Map_get dailyReadings found.1.1)) found.1.2 found.2).

(** A contribution falls on the slot of date [d] and hour [h]. *)
Definition slotAt (d : string) (h : nat)
    (found : string * nat * HistoricalReading) : Prop :=
  found.1 = (d, h).

#[global] Instance slotAt_dec d h found : Decision (slotAt d h found).
Proof. unfold slotAt. apply _. Defined.


(** A result as [analyzeFogLevel] builds it: without a region. *)
Definition unplacedResult (t : Z) : VisibilityResult :=
  {| location := "marina"; region := None; landmarksVisible := 0;
     totalLandmarks := 3; visibilityScore := ofZ 0; fogLevel := heavy;
     timestamp := t; landmarkDetails := [] |}.

(** Five past two in the afternoon of 5 January 2024. *)
Definition jan5check : Z := hourOf 4 14 + 300000.

(** A result whose region is defined and is a plain file name. *)
Definition plainRegion (result : VisibilityResult) : bool :=
  match region result with
  | Some name => plainName name
  | None => false
  end.

(** * Properties *)

(** ** Facts about numbers *)

Lemma num_ge_ofZ (a b : Z) : num_ge (ofZ a) (ofZ b) = (b <=? a).
Proof.
  unfold num_ge, ofZ, Qle_bool. simpl. by rewrite !Z.mul_1_r.
Qed.




(** C4: on integer scores the classifier returns clear exactly from 80
    up, light exactly on 50 to 79, moderate exactly on 20 to 49 and heavy
    exactly below 20; the eight boundary values are classified as the
    specification lists them. *)
Theorem getFogLevel_bands (s : Z) :
  (getFogLevel (ofZ s) = clear <-> 80 <= s)
  /\ (getFogLevel (ofZ s) = light <-> 50 <= s < 80)
  /\ (getFogLevel (ofZ s) = moderate <-> 20 <= s < 50)
  /\ (getFogLevel (ofZ s) = heavy <-> s < 20)
  /\ getFogLevel (ofZ 80) = clear /\ getFogLevel (ofZ 79) = light
  /\ getFogLevel (ofZ 50) = light /\ getFogLevel (ofZ 49) = moderate
  /\ getFogLevel (ofZ 20) = moderate /\ getFogLevel (ofZ 19) = heavy
  /\ getFogLevel (ofZ 0) = heavy /\ getFogLevel (ofZ 100) = clear.
Proof.
  unfold getFogLevel. rewrite !num_ge_ofZ.
  repeat split; try reflexivity;
    destruct (Z.leb_spec 80 s), (Z.leb_spec 50 s), (Z.leb_spec 20 s);
    intros; try lia; try discriminate; try reflexivity.
Qed.

(** ** Landmark comparison and location analysis *)

#[local] Arguments num_sub : simpl never.
#[local] Arguments num_mul : simpl never.
#[local] Arguments num_div : simpl never.
#[local] Arguments num_ge : simpl never.
#[local] Arguments Math_round : simpl never.
#[local] Arguments ofZ : simpl never.

Section DetectorFacts.
Context `{Collaborators}.


Lemma countVisible_app d1 d2 :
  countVisible (d1 ++ d2) = countVisible d1 + countVisible d2.
Proof. unfold countVisible. rewrite filter_app, length_app. lia. Qed.

Lemma countVisible_bounds details :
  0 <= countVisible details <= Z.of_nat (length details).
Proof.
  unfold countVisible.
  pose proof (length_filter (fun d => visible d = true) details). lia.
Qed.

(** The loop adds one detail per landmark, in order, and counts the
    visible ones. *)
Lemma checkLandmarks_inv buf lms : forall v0 d0 v d,
  checkLandmarks buf lms v0 d0 = Some (v, d) ->
  exists new, d = d0 ++ new
    /\ length new = length lms
    /\ v = v0 + countVisible new.
Proof.
  induction lms as [|lm lms IH]; intros v0 d0 v d Hc; simpl in Hc.
  - inversion Hc; subst. exists []. rewrite app_nil_r.
    repeat split. unfold countVisible. simpl. lia.
  - destruct (checkLandmarkVisibility buf lm) as [[vis sim]|]; [|done].
    apply IH in Hc as (new & -> & Hlen & ->).
    exists (mkLandmarkDetail (lt_name lm) vis sim :: new).
    rewrite <- app_assoc. simpl. repeat split; [by rewrite Hlen|].
    change (mkLandmarkDetail (lt_name lm) vis sim :: new)
      with ([mkLandmarkDetail (lt_name lm) vis sim] ++ new).
    rewrite countVisible_app. unfold countVisible at 2.
    destruct vis; simpl; rewrite ?decide_True, ?decide_False by done; simpl; lia.
Qed.

Lemma analyzeFogLevel_inv locationName now r :
  analyzeFogLevel locationName now = Some r ->
  exists config buf,
    readConfig locationName = Some config
    /\ fetchWebcamImage (source config) = Some buf
    /\ checkLandmarks buf (lc_landmarks config) 0 []
       = Some (landmarksVisible r, landmarkDetails r)
    /\ totalLandmarks r = Z.of_nat (length (lc_landmarks config))
    /\ let score := num_mul (num_div (ofZ (landmarksVisible r))
                               (ofZ (totalLandmarks r))) (ofZ 100) in
       visibilityScore r = Math_round score /\ fogLevel r = getFogLevel score.
Proof.
  unfold analyzeFogLevel. intros Ha.
  apply bind_Some in Ha as (config & Hcfg & Ha).
  apply bind_Some in Ha as (buf & Hbuf & Ha).
  apply bind_Some in Ha as ([v d] & Hl & Ha).
  inversion Ha; subst; simpl. exists config, buf. by repeat split.
Qed.

Lemma analyzeFogLevel_counts locationName now r :
  analyzeFogLevel locationName now = Some r ->
  landmarksVisible r = countVisible (landmarkDetails r)
  /\ totalLandmarks r = Z.of_nat (length (landmarkDetails r))
  /\ 0 <= landmarksVisible r <= totalLandmarks r.
Proof.
  intros (config & buf & _ & _ & Hl & Ht & _)%analyzeFogLevel_inv.
  apply checkLandmarks_inv in Hl as (new & Hd & Hlen & Hv).
  simpl in Hd. rewrite Hd, Ht, Hv, Hlen.
  pose proof (countVisible_bounds new). lia.
Qed.



End DetectorFacts.

(** C1, at a failing input: with 8 of 41 landmarks visible the unrounded
    score is 19.51..., so the analysis reports the rounded score 20
    together with the level heavy, although the classifier maps the
    reported score 20 to moderate. *)
Theorem analyzeFogLevel_8_of_41 :
  exists r,
    @analyzeFogLevel (halfScene 8 33) "marina" 0 = Some r
    /\ landmarksVisible r = 8
    /\ totalLandmarks r = 41
    /\ visibilityScore r = ofZ 20
    /\ fogLevel r = heavy
    /\ getFogLevel (visibilityScore r) = moderate.
Proof. eexists. split; [vm_compute; reflexivity|]. by vm_compute. Qed.

(** ** The analysis and the comparison in binary64 *)

(** C5, at a failing input: with 23 of 40 landmarks visible the program
    divides first, and the double (23 / 40) * 100 lies just under 57.5,
    so that the analysis returns the score 57, where round(100 * 23 / 40)
    is 58.  The specification's own example, 1 visible of 3, gives 33. *)
Theorem analyzeFogLevel_23_of_40 :
  exists r,
    @Binary64.analyzeFogLevel (halfScene 23 17) "marina" 0 = Some r
    /\ landmarksVisible r = 23
    /\ totalLandmarks r = 40
    /\ visibilityScore r = ofZ 57
    /\ round_half_up (inject_Z 100 * inject_Z 23 / inject_Z 40) = 58
    /\ (num_ge (Binary64.value
                  (Binary64.mul (Binary64.div (Binary64.ofInt 23)
                                   (Binary64.ofInt 40))
                     (Binary64.ofInt 100)))
          (Fin (115 # 2)) = false)
    /\ (visibilityScore <$> @Binary64.analyzeFogLevel (halfScene 1 2) "marina" 0)
       = Some (ofZ 33).
Proof.
  eexists. split; [vm_compute; reflexivity|].
  repeat split; vm_compute; reflexivity.
Qed.

(** C6, at a failing input: in a region of 40 pixels of which 17
    mismatch, the share of matching pixels is 0.575, which rounds to 0.58.
    The program computes 1 - 17/40 in doubles, which lies just under
    0.575, and its product by 100 just under 57.5, so that the reported
    similarity is 0.57.  The landmark is visible at the threshold 0.5. *)
Theorem checkLandmarkVisibility_17_of_40 :
  @Binary64.checkLandmarkVisibility gateScene (replicate 40 0)
    (gateLandmark (Binary64.decimal 1 2))
  = Some (true, Fin (Binary64.decimal 57 100))
  /\ @pixelmatch gateScene (replicate 40 0)
       (replicate 17 255 ++ replicate 23 0) 40 1 = Some 17%nat
  /\ round_half_up (inject_Z 100 * (1 - inject_Z 17 / inject_Z 40)) = 58
  /\ (num_ge (Binary64.value
                (Binary64.sub (Binary64.ofInt 1)
                   (Binary64.div (Binary64.ofInt 17) (Binary64.ofInt 40))))
        (Fin (23 # 40)) = false)
  /\ (num_ge (Binary64.value
                (Binary64.mul
                   (Binary64.sub (Binary64.ofInt 1)
                      (Binary64.div (Binary64.ofInt 17) (Binary64.ofInt 40)))
                   (Binary64.ofInt 100)))
        (Fin (115 # 2)) = false).
Proof.
  repeat split; vm_compute; reflexivity.
Qed.

(** ** Facts about the insertion-ordered map *)

Section JSMapFacts.
Context {K V : Type} `{EqDecision K}.
Implicit Types (m : list (K * V)) (k : K) (v : V).

Lemma Map_get_set m k v k' :
  Map_get (Map_set m k v) k' = if decide (k = k') then Some v else Map_get m k'.
Proof.
  induction m as [|[k0 v0] m IH]; simpl.
  - by destruct (decide (k = k')).
  - destruct (decide (k0 = k)) as [->|Hne]; simpl.
    + by destruct (decide (k = k')).
    + rewrite IH. destruct (decide (k0 = k')) as [->|]; [|done].
      by rewrite decide_False.
Qed.

Lemma Map_set_keys m k v :
  (Map_set m k v).*1 = if decide (k ∈ m.*1) then m.*1 else m.*1 ++ [k].
Proof.
  induction m as [|[k0 v0] m IH].
  - destruct (decide (k ∈ ([] : list (K * V)).*1)) as [Hin|]; [|done].
    by apply elem_of_nil in Hin.
  - cbn [Map_set]. destruct (decide (k0 = k)) as [->|Hne].
    + destruct (decide (k ∈ ((k, v0) :: m).*1)) as [|Hn]; [done|].
      destruct Hn. apply elem_of_cons; by left.
    + rewrite fmap_cons, IH.
      destruct (decide (k ∈ m.*1)) as [Hin|Hnin];
        destruct (decide (k ∈ ((k0, v0) :: m).*1)) as [Hin'|Hnin'];
        try done.
      * destruct Hnin'. apply elem_of_cons; by right.
      * apply elem_of_cons in Hin' as [->|?]; done.
Qed.

Lemma Map_set_NoDup m k v : NoDup m.*1 -> NoDup (Map_set m k v).*1.
Proof.
  intros Hnd. rewrite Map_set_keys. destruct (decide (k ∈ m.*1)); [done|].
  apply NoDup_app. split; [done|]. split; [|apply NoDup_singleton].
  intros k' Hin ->%list_elem_of_singleton. done.
Qed.

Lemma Map_get_Some m k v : NoDup m.*1 -> (Map_get m k = Some v <-> (k, v) ∈ m).
Proof.
  induction m as [|[k0 v0] m IH]; simpl; intros Hnd.
  - split; [done|]. by intros ?%elem_of_nil.
  - apply NoDup_cons in Hnd as [Hk0 Hnd].
    destruct (decide (k0 = k)) as [->|Hne].
    + split.
      * intros [= ->]. apply elem_of_cons; by left.
      * intros [[= ->]|Hin]%elem_of_cons; [done|].
        exfalso. apply Hk0. apply list_elem_of_fmap. by exists (k, v).
    + rewrite IH by done. split.
      * intros ?. apply elem_of_cons; by right.
      * intros [[= -> ->]|?]%elem_of_cons; done.
Qed.

Lemma Map_get_None m k : Map_get m k = None <-> k ∉ m.*1.
Proof.
  induction m as [|[k0 v0] m IH]; simpl.
  - split; [intros _; apply not_elem_of_nil|done].
  - destruct (decide (k0 = k)) as [->|Hne].
    + split; [done|]. intros []. apply elem_of_cons; by left.
    + rewrite IH. split.
      * intros ? [->|?]%elem_of_cons; done.
      * intros Hn ?. apply Hn. apply elem_of_cons; by right.
Qed.
End JSMapFacts.

(** ** Region aggregation *)

Lemma regionMap_fold (results : list VisibilityResult) : forall m key,
  Map_get (foldl (fun m result => Map_set m (region result) result) m results) key
  = match last (filter (inRegion key) results) with
    | Some r => Some r
    | None => Map_get m key
    end.
Proof.
  induction results as [|r results IH]; intros m key; simpl; [done|].
  rewrite IH, Map_get_set. rewrite filter_cons.
  destruct (decide (inRegion key r)) as [Heq|Hne]; unfold inRegion in *.
  - rewrite decide_True by done. rewrite last_cons.
    by destruct (last _).
  - by rewrite decide_False.
Qed.

Lemma regionMap_fold_NoDup (results : list VisibilityResult) : forall m,
  NoDup m.*1 ->
  NoDup (foldl (fun m result => Map_set m (region result) result) m results).*1.
Proof.
  induction results as [|r results IH]; intros m Hnd; simpl; [done|].
  by apply IH, Map_set_NoDup.
Qed.

Lemma last_filter_Some {A} (P : A -> Prop) `{forall x, Decision (P x)}
    (l : list A) (a : A) :
  last (filter P l) = Some a -> a ∈ l /\ P a.
Proof.
  intros Hl. assert (a ∈ filter P l) as Hin.
  { apply last_Some in Hl as [l' ->]. apply elem_of_app. right.
    by apply list_elem_of_singleton. }
  by apply list_elem_of_filter in Hin as [? ?].
Qed.

Lemma last_filter_None {A} (P : A -> Prop) `{forall x, Decision (P x)}
    (l : list A) :
  last (filter P l) = None <-> forall a, a ∈ l -> ~ P a.
Proof.
  rewrite last_None. split.
  - intros Hnil a Hin Hp.
    assert (a ∈ filter P l) as Hf by (by apply list_elem_of_filter).
    rewrite Hnil in Hf. by apply elem_of_nil in Hf.
  - intros Hall. destruct (filter P l) as [|a l'] eqn:Hf; [done|].
    assert (a ∈ filter P l) as Hin by (rewrite Hf; apply elem_of_cons; by left).
    apply list_elem_of_filter in Hin as [Hp Hin]. by destruct (Hall a Hin).
Qed.

(** C8: the region map has one entry per distinct region key of the
    results; the entry of a key holds the last result, in iteration order,
    with that key; and the per-region records and the flat collection are
    the status records of exactly these entries, in the same order. *)
Theorem regionMap_last_write_wins (results : list VisibilityResult) :
  NoDup (regionMap results).*1
  /\ (forall key, key ∈ (regionMap results).*1
                  <-> exists r, r ∈ results /\ region r = key)
  /\ (forall key r, (key, r) ∈ regionMap results
                    <-> last (filter (fun r' => region r' = key) results) = Some r)
  /\ regionEndpoints results
     = map (fun entry => (entry.1, statusOf entry.2)) (regionMap results)
  /\ allRegions results = map (fun entry => statusOf entry.2) (regionMap results)
  /\ (regionEndpoints results).*2 = allRegions results.
Proof.
  assert (Hnd : NoDup (regionMap results).*1).
  { apply regionMap_fold_NoDup. constructor. }
  assert (Hget : forall key,
             Map_get (regionMap results) key
             = last (filter (inRegion key) results)).
  { intros key. unfold regionMap. rewrite regionMap_fold. simpl.
    by destruct (last (filter (inRegion key) results)). }
  assert (Hentry : forall key r, (key, r) ∈ regionMap results
             <-> last (filter (inRegion key) results) = Some r).
  { intros key r. by rewrite <- Hget, Map_get_Some. }
  assert (Hkey : forall e, e ∈ regionMap results -> region e.2 = e.1).
  { intros [key r] Hin. apply Hentry in Hin.
    by apply last_filter_Some in Hin as [_ Hr]. }
  assert (Hends : regionEndpoints results
             = map (fun entry => (entry.1, statusOf entry.2)) (regionMap results)).
  { unfold regionEndpoints. apply map_ext_in. intros [key r] Hin.
    apply list_elem_of_In, Hkey in Hin. simpl in *. unfold statusOf.
    by rewrite Hin. }
  assert (Hall : allRegions results
             = map (fun entry => statusOf entry.2) (regionMap results)).
  { unfold allRegions. by rewrite map_map. }
  split; [done|]. split; [|split; [done|split; [done|split; [done|]]]].
  - intros key. split.
    + intros Hin. destruct (Map_get (regionMap results) key) as [r|] eqn:Hg.
      * rewrite Hget in Hg. apply last_filter_Some in Hg as [? ?]. by exists r.
      * by apply Map_get_None in Hg.
    + intros (r & Hin & Hr).
      destruct (Map_get (regionMap results) key) as [r'|] eqn:Hg.
      * apply Map_get_Some in Hg; [|done].
        apply list_elem_of_fmap. by exists (key, r').
      * rewrite Hget in Hg. rewrite last_filter_None in Hg.
        by destruct (Hg r Hin).
  - rewrite Hends, Hall.
    generalize (regionMap results). intros m.
    induction m as [|[key r] m IH]; [done|].
    simpl. f_equal. exact IH.
Qed.

(** ** Facts about sorting *)

Section SortFacts.
Context {A : Type} (leb : A -> A -> bool) (R : relation A).
Hypothesis leb_R : forall a b, leb a b = true -> R a b.
Hypothesis leb_total : forall a b, leb a b = true \/ leb b a = true.

Lemma sort_insert_perm a l : sort_insert leb a l ≡ₚ a :: l.
Proof.
  induction l as [|b l IH]; simpl; [done|].
  destruct (leb a b); [done|]. rewrite IH. apply Permutation_swap.
Qed.

Lemma Array_sort_perm l : Array_sort leb l ≡ₚ l.
Proof.
  induction l as [|a l IH]; simpl; [done|].
  unfold Array_sort in *. simpl. by rewrite sort_insert_perm, IH.
Qed.

Lemma sort_insert_HdRel a b l :
  R b a -> HdRel R b l -> HdRel R b (sort_insert leb a l).
Proof.
  intros Hba Hhd. destruct l as [|c l]; simpl; [by constructor|].
  destruct (leb a c); constructor; [done|]. by inversion Hhd.
Qed.

Lemma sort_insert_Sorted a l : Sorted R l -> Sorted R (sort_insert leb a l).
Proof.
  induction 1 as [|b l Hs IH Hhd]; simpl.
  - repeat constructor.
  - destruct (leb a b) eqn:Hab.
    + repeat constructor; auto.
    + constructor; [done|]. apply sort_insert_HdRel; [|done].
      destruct (leb_total a b) as [Hle|Hle]; [congruence|auto].
Qed.

Lemma Array_sort_Sorted l : Sorted R (Array_sort leb l).
Proof.
  induction l as [|a l IH]; [constructor|].
  by apply sort_insert_Sorted.
Qed.
End SortFacts.

Lemma sortStrings_perm (l : list string) : sortStrings l ≡ₚ l.
Proof. apply Array_sort_perm. Qed.

Lemma sortStrings_Sorted (l : list string) : Sorted String.le (sortStrings l).
Proof.
  apply Array_sort_Sorted; [|apply String.leb_total].
  intros a b Hab. unfold String.le. by rewrite Hab.
Qed.

(** Sorting forgets the order of the listing. *)
Lemma sortStrings_ext (l1 l2 : list string) :
  l1 ≡ₚ l2 -> sortStrings l1 = sortStrings l2.
Proof.
  intros Hp. apply (Sorted_unique String.le); try apply sortStrings_Sorted.
  by rewrite !sortStrings_perm.
Qed.

Lemma sortByTimestamp_perm l : sortByTimestamp l ≡ₚ l.
Proof. apply Array_sort_perm. Qed.

Lemma sortByTimestamp_sorted l :
  StronglySorted (fun a b => hr_timestamp a <= hr_timestamp b)
    (sortByTimestamp l).
Proof.
  apply Sorted_StronglySorted.
  { intros a b c ? ?. lia. }
  apply Array_sort_Sorted.
  - intros a b Hab. lia.
  - intros a b. lia.
Qed.

(** ** Facts about the directory listing *)

Lemma elem_of_readdir (dir : gmap string File) f :
  f ∈ readdir dir <-> is_Some (dir !! f).
Proof.
  unfold readdir. rewrite list_elem_of_fmap. split.
  - intros ([f' c] & -> & Hin). apply elem_of_map_to_list in Hin. by exists c.
  - intros [c Hc]. exists (f, c). split; [done|]. by apply elem_of_map_to_list.
Qed.

Lemma NoDup_readdir (dir : gmap string File) : NoDup (readdir dir).
Proof. apply NoDup_fst_map_to_list. Qed.

Lemma filter_readdir_perm (P : string -> Prop) `{forall f, Decision (P f)}
    (d1 d2 : gmap string File) :
  (forall f, P f -> is_Some (d1 !! f) <-> is_Some (d2 !! f)) ->
  filter P (readdir d1) ≡ₚ filter P (readdir d2).
Proof.
  intros Hext. apply NoDup_Permutation; try apply NoDup_filter, NoDup_readdir.
  intros f. rewrite !list_elem_of_filter, !elem_of_readdir.
  split; intros [Hp Hf]; (split; [done|]); by apply (Hext f Hp).
Qed.

(** ** The 7-day rollup *)

Section RecentFacts.
Context `{DateParser}.

Lemma notBefore_inWindow now f :
  isDateKey f /\ notBefore (now - SEVEN_DAYS_MS) f <-> inWindow now f.
Proof.
  unfold inWindow, notBefore, SEVEN_DAYS_MS. rewrite Is_true_true.
  destruct (Date_getTime f) as [t|]; simpl.
  - rewrite Is_true_true, Z.leb_le. split.
    + intros [? ?]. split; [done|]. by exists t.
    + intros [? (t' & [= <-] & ?)]. done.
  - split; [by intros [_ []]|]. by intros [_ (t & ? & _)].
Qed.

Lemma elem_of_recentFiles now dir f :
  f ∈ recentFiles now dir <-> is_Some (dir !! f) /\ inWindow now f.
Proof.
  unfold recentFiles. rewrite sortStrings_perm.
  rewrite !list_elem_of_filter, elem_of_readdir, <- notBefore_inWindow.
  tauto.
Qed.

(** The rollup does not depend on files outside the window. *)
Lemma recentFiles_ext now (d1 d2 : gmap string File) :
  (forall f, inWindow now f -> is_Some (d1 !! f) <-> is_Some (d2 !! f)) ->
  recentFiles now d1 = recentFiles now d2.
Proof.
  intros Hext. unfold recentFiles. apply sortStrings_ext.
  rewrite !list_filter_filter. apply filter_readdir_perm.
  intros f [Hnb Hdk]. apply Hext, notBefore_inWindow. done.
Qed.

Lemma collectReadings_Some dir files : forall acc,
  (forall f, f ∈ files -> is_Some (readHours dir f)) ->
  collectReadings dir files acc
  = Some (acc ++ flat_map (bucketReadings dir) files).
Proof.
  induction files as [|f files IH]; intros acc Hall; simpl.
  - by rewrite app_nil_r.
  - destruct (Hall f) as [hours Hf]; [apply elem_of_cons; by left|].
    rewrite Hf, IH.
    + unfold bucketReadings at 2. rewrite Hf. simpl. by rewrite <- app_assoc.
    + intros g Hg. apply Hall, elem_of_cons. by right.
Qed.

Lemma collectReadings_None dir files f : forall acc,
  f ∈ files -> readHours dir f = None -> collectReadings dir files acc = None.
Proof.
  induction files as [|g files IH]; intros acc Hin Hf; simpl.
  - by apply elem_of_nil in Hin.
  - apply elem_of_cons in Hin as [<-|Hin]; [by rewrite Hf|].
    destruct (readHours dir g); [|done]. by apply IH.
Qed.

Lemma collectReadings_ext d1 d2 files : forall acc,
  (forall f, f ∈ files -> d1 !! f = d2 !! f) ->
  collectReadings d1 files acc = collectReadings d2 files acc.
Proof.
  induction files as [|f files IH]; intros acc Hext; simpl; [done|].
  unfold readHours. rewrite (Hext f) by (apply elem_of_cons; by left).
  destruct (d2 !! f) as [[]|]; try done.
  apply IH. intros g Hg. apply Hext, elem_of_cons. by right.
Qed.

Lemma readHours_Some dir f hours :
  readHours dir f = Some hours <-> dir !! f = Some (DailyFile hours).
Proof.
  unfold readHours. destruct (dir !! f) as [[]|]; split; congruence.
Qed.

Lemma elem_of_bucketReadings dir f r :
  r ∈ bucketReadings dir f
  <-> exists hours, dir !! f = Some (DailyFile hours) /\ Some r ∈ hours.
Proof.
  unfold bucketReadings, validReadings. rewrite list_elem_of_omap. split.
  - intros (o & Hin & Ho). simpl in Ho. subst o.
    destruct (readHours dir f) as [hours|] eqn:Hf; simpl in Hin.
    + exists hours. by rewrite <- readHours_Some.
    + by apply elem_of_nil in Hin.
  - intros (hours & Hf & Hin). apply readHours_Some in Hf. rewrite Hf.
    by exists (Some r).
Qed.

(** C2: when every date-named file in the window is a readable bucket,
    the rollup is written and holds exactly the non-empty slots of the
    buckets whose date is not more than seven days before [now], sorted
    ascending by timestamp; a bucket is left out exactly when its date is
    earlier than that (or is no date). *)
Theorem generateRecentFile_window now (dir : gmap string File) :
  (forall f, is_Some (dir !! f) -> inWindow now f ->
             exists hours, dir !! f = Some (DailyFile hours)) ->
  exists readings,
    recentReadings now dir = Some readings
    /\ generateRecentFile now dir !! "recent" = Some (RecentFile readings)
    /\ StronglySorted (fun a b => hr_timestamp a <= hr_timestamp b) readings
    /\ readings ≡ₚ flat_map (bucketReadings dir) (recentFiles now dir)
    /\ NoDup (recentFiles now dir)
    /\ (forall f, f ∈ recentFiles now dir
                  <-> is_Some (dir !! f) /\ inWindow now f)
    /\ (forall r, r ∈ readings
          <-> exists f hours,
                dir !! f = Some (DailyFile hours)
                /\ inWindow now f
                /\ Some r ∈ hours).
Proof.
  intros Hok.
  assert (Hall : forall f, f ∈ recentFiles now dir -> is_Some (readHours dir f)).
  { intros f [Hf Hw]%elem_of_recentFiles.
    destruct (Hok f Hf Hw) as [hours Hh]. exists hours.
    by apply readHours_Some. }
  exists (sortByTimestamp (flat_map (bucketReadings dir) (recentFiles now dir))).
  assert (Hr : recentReadings now dir
               = Some (sortByTimestamp
                         (flat_map (bucketReadings dir) (recentFiles now dir)))).
  { unfold recentReadings. by rewrite collectReadings_Some. }
  split; [done|]. split.
  { unfold generateRecentFile. rewrite Hr. apply lookup_insert_eq. }
  split; [apply sortByTimestamp_sorted|].
  split; [apply sortByTimestamp_perm|].
  split.
  { unfold recentFiles. rewrite sortStrings_perm.
    apply NoDup_filter, NoDup_filter, NoDup_readdir. }
  split; [apply elem_of_recentFiles|].
  intros r. rewrite sortByTimestamp_perm.
  rewrite list_elem_of_In, in_flat_map. split.
  - intros (f & Hf & Hin).
    apply list_elem_of_In, elem_of_recentFiles in Hf as [_ Hw].
    apply list_elem_of_In, elem_of_bucketReadings in Hin as (hours & ? & ?).
    by exists f, hours.
  - intros (f & hours & Hf & Hw & Hin). exists f. split.
    + apply list_elem_of_In, elem_of_recentFiles. split; [by eexists|done].
    + apply list_elem_of_In, elem_of_bucketReadings. by exists hours.
Qed.

(** C3, as the code has it: an unreadable or corrupt bucket inside the
    window makes the whole recomputation stop; the error is caught, no
    rollup is produced and the directory, with the previous rollup, is left
    as it was.  Only a file outside the window is never read: whatever it
    holds, the rollup is the same. *)
Theorem generateRecentFile_corrupt_bucket now (dir : gmap string File) :
  (forall f,
     is_Some (dir !! f) -> inWindow now f ->
     (forall hours, dir !! f <> Some (DailyFile hours)) ->
     recentReadings now dir = None /\ generateRecentFile now dir = dir)
  /\ (forall g content,
        ~ inWindow now g ->
        recentReadings now (<[g := content]> dir) = recentReadings now dir).
Proof.
  split.
  - intros f Hf Hw Hbad.
    assert (Hr : recentReadings now dir = None).
    { unfold recentReadings.
      rewrite (collectReadings_None dir _ f); [done| |].
      - by apply elem_of_recentFiles.
      - destruct (readHours dir f) as [hours|] eqn:Hh; [|done].
        apply readHours_Some in Hh. by destruct (Hbad hours). }
    split; [done|]. unfold generateRecentFile. by rewrite Hr.
  - intros g content Hout. unfold recentReadings.
    rewrite (recentFiles_ext now (<[g := content]> dir) dir).
    + rewrite (collectReadings_ext (<[g := content]> dir) dir); [done|].
      intros f [_ Hw]%elem_of_recentFiles. apply lookup_insert_ne.
      by intros ->.
    + intros f Hw. rewrite lookup_insert_ne; [done|]. by intros ->.
Qed.
End RecentFacts.

(** ** Arrays and date keys *)

Lemma array_set_lookup {A} (arr : list (option A)) i v :
  array_set arr i v !! i = Some (Some v).
Proof.
  unfold array_set. destruct (decide (i < length arr)%nat) as [Hlt|Hge].
  - by apply list_lookup_insert_eq.
  - rewrite lookup_app_r by lia. rewrite lookup_app_r; rewrite length_replicate; [|lia].
    by rewrite Nat.sub_diag.
Qed.

Lemma array_set_length {A} (arr : list (option A)) i v :
  (i < length (array_set arr i v))%nat.
Proof.
  unfold array_set. destruct (decide (i < length arr)%nat) as [Hlt|Hge].
  - by rewrite length_insert.
  - rewrite !length_app, length_replicate. simpl. lia.
Qed.

Lemma array_set_in_range {A} (arr : list (option A)) i v :
  (i < length arr)%nat -> array_set arr i v = <[i := Some v]> arr.
Proof. intros Hlt. unfold array_set. by rewrite decide_True. Qed.

Lemma digitChar_isDigit n : isDigit (digitChar n) = true.
Proof. unfold digitChar. repeat case_match; reflexivity. Qed.

(** A date key starts with a digit or a sign. *)
Lemma toISODate_head t :
  exists c s, toISODate t = String c s
    /\ (isDigit c = true \/ c = "+"%char \/ c = "-"%char).
Proof.
  unfold toISODate. destruct (civil_from_days (t / MS_PER_DAY)) as [[yr mo] d].
  unfold isoYear. destruct ((0 <=? yr) && (yr <=? 9999)).
  - eexists _, _. split; [reflexivity|]. left. apply digitChar_isDigit.
  - eexists _, _. split; [reflexivity|]. right. destruct (0 <=? yr); auto.
Qed.

Lemma toISODate_not_artifact t :
  toISODate t <> "recent" /\ toISODate t <> "index".
Proof.
  destruct (toISODate_head t) as (c & s & -> & Hc).
  split; intros [= -> _]; destruct Hc as [Hc|[Hc|Hc]]; discriminate.
Qed.

Lemma getUTCHours_lt t : (getUTCHours t < 24)%nat.
Proof.
  unfold getUTCHours.
  pose proof (Z.mod_pos_bound (t / MS_PER_HOUR) 24). lia.
Qed.

(** ** The historical update *)

Section UpdateFacts.
Context `{DateParser}.

Lemma generateRecentFile_lookup now (dir : gmap string File) k :
  k <> "recent" -> generateRecentFile now dir !! k = dir !! k.
Proof.
  intros Hk. unfold generateRecentFile.
  destruct (recentReadings now dir); [|done]. by rewrite lookup_insert_ne.
Qed.

Lemma updateHistoricalRange_lookup artifact now (dir : gmap string File) k :
  k <> artifact -> updateHistoricalRange artifact now dir !! k = dir !! k.
Proof.
  intros Hk. unfold updateHistoricalRange.
  destruct (sortStrings _); [done|]. by rewrite lookup_insert_ne.
Qed.

(** What an update that returns has written. *)
Lemma updateHistoricalData_inv results now history dir' :
  updateHistoricalData results now history = Some dir' ->
  let reading := newReading results now in
  exists hours,
    loadDaily (default ∅ history) (toISODate (hr_timestamp reading))
    = Some hours
    /\ dir' !! toISODate (hr_timestamp reading)
       = Some (DailyFile
                 (array_set hours (getUTCHours (hr_timestamp reading)) reading)).
Proof.
  unfold updateHistoricalData. intros Hu.
  apply bind_Some in Hu as (hours & Hload & Hu). inversion Hu; subst; clear Hu.
  exists hours. split; [done|].
  destruct (toISODate_not_artifact (hr_timestamp (newReading results now)))
    as [Hr Hi].
  rewrite updateHistoricalRange_lookup, generateRecentFile_lookup by done.
  apply lookup_insert_eq.
Qed.

Lemma updateHistoricalData_Some results now history hours :
  loadDaily (default ∅ history)
    (toISODate (hr_timestamp (newReading results now))) = Some hours ->
  is_Some (updateHistoricalData results now history).
Proof. intros Hload. unfold updateHistoricalData. rewrite Hload. by eexists. Qed.

(** C7: after an update for a date and hour has succeeded, a second
    update for the same date and hour succeeds and leaves the second
    reading in that hour's slot; the bucket differs from the one after the
    first update in that slot only. *)
Theorem updateHistoricalData_last_write_wins
    results1 results2 now1 now2 history dir1 :
  let r1 := newReading results1 now1 in
  let r2 := newReading results2 now2 in
  toISODate (hr_timestamp r1) = toISODate (hr_timestamp r2) ->
  getUTCHours (hr_timestamp r1) = getUTCHours (hr_timestamp r2) ->
  updateHistoricalData results1 now1 history = Some dir1 ->
  exists dir2 hours1 hours2,
    updateHistoricalData results2 now2 (Some dir1) = Some dir2
    /\ dir1 !! toISODate (hr_timestamp r1) = Some (DailyFile hours1)
    /\ hours1 !! getUTCHours (hr_timestamp r1) = Some (Some r1)
    /\ dir2 !! toISODate (hr_timestamp r1) = Some (DailyFile hours2)
    /\ hours2 !! getUTCHours (hr_timestamp r1) = Some (Some r2)
    /\ hours2 = <[getUTCHours (hr_timestamp r1) := Some r2]> hours1.
Proof.
  intros r1 r2 Hdate Hhour Hu1.
  destruct (updateHistoricalData_inv _ _ _ _ Hu1) as (hours0 & _ & Hd1).
  fold r1 in Hd1.
  set (hours1 := array_set hours0 (getUTCHours (hr_timestamp r1)) r1) in *.
  assert (Hload : loadDaily (default ∅ (Some dir1))
                    (toISODate (hr_timestamp r2)) = Some hours1).
  { unfold loadDaily. change (default ∅ (Some dir1)) with dir1.
    by rewrite <- Hdate, Hd1. }
  destruct (updateHistoricalData_Some results2 now2 (Some dir1) hours1 Hload)
    as [dir2 Hu2].
  destruct (updateHistoricalData_inv _ _ _ _ Hu2) as (hours & Hload' & Hd2).
  fold r2 in Hload', Hd2. rewrite Hload in Hload'. inversion Hload'; subst hours.
  rewrite <- Hdate, <- Hhour in Hd2.
  exists dir2, hours1, (array_set hours1 (getUTCHours (hr_timestamp r1)) r2).
  split; [done|]. split; [done|]. split; [apply array_set_lookup|].
  split; [done|]. split; [apply array_set_lookup|].
  apply array_set_in_range, array_set_length.
Qed.

(** C10: with no results at all, and today's file absent, unparseable or
    a daily bucket, the update succeeds; it writes a reading stamped [now]
    with an empty regions map into the slot of the current hour of today's
    bucket, whatever that slot held before. *)
Theorem updateHistoricalData_empty now history :
  (forall content,
     default ∅ history !! toISODate now = Some content ->
     content = Unparseable \/ exists hours, content = DailyFile hours) ->
  exists dir' hours hours',
    updateHistoricalData [] now history = Some dir'
    /\ loadDaily (default ∅ history) (toISODate now) = Some hours
    /\ dir' !! toISODate now = Some (DailyFile hours')
    /\ hours' = array_set hours (getUTCHours now)
                  {| hr_timestamp := now; regions := ∅ |}
    /\ hours' !! getUTCHours now
       = Some (Some {| hr_timestamp := now; regions := ∅ |})
    /\ (getUTCHours now < 24)%nat.
Proof.
  intros Hfile.
  assert (Hload : is_Some (loadDaily (default ∅ history) (toISODate now))).
  { unfold loadDaily.
    destruct (default ∅ history !! toISODate now) as [content|] eqn:Hc;
      [|by eexists].
    destruct (Hfile content eq_refl) as [->|[hours ->]]; by eexists. }
  destruct Hload as [hours Hload].
  destruct (updateHistoricalData_Some [] now history hours Hload) as [dir' Hu].
  destruct (updateHistoricalData_inv _ _ _ _ Hu) as (hours0 & Hload0 & Hd).
  simpl in Hload0, Hd. rewrite Hload in Hload0. inversion Hload0; subst hours0.
  exists dir', hours, (array_set hours (getUTCHours now) (newReading [] now)).
  split; [done|]. split; [done|]. split; [done|]. split; [done|].
  split; [apply array_set_lookup|apply getUTCHours_lt].
Qed.
End UpdateFacts.

(** ** The retention sweep *)

Section CleanupFacts.
Context `{DateParser}.

Lemma cleanupStep_expired cutoffTime st f :
  expired cutoffTime f ->
  cleanupStep cutoffTime st f
  = {| cl_dir := delete f (cl_dir st);
       deleted := deleted st ++ [f];
       keptCount := keptCount st |}.
Proof.
  intros [Hk (t & Ht & Hlt)]. unfold cleanupStep. rewrite Hk, Ht. simpl.
  apply Z.ltb_lt in Hlt. by rewrite Hlt.
Qed.

Lemma cleanupStep_retained cutoffTime st f :
  retained cutoffTime f ->
  cleanupStep cutoffTime st f
  = {| cl_dir := cl_dir st;
       deleted := deleted st;
       keptCount := S (keptCount st) |}.
Proof.
  intros [Hk Hne]. unfold cleanupStep. rewrite Hk. simpl.
  destruct (Date_getTime f) as [t|] eqn:Ht; [|done].
  destruct (Z.ltb_spec t cutoffTime) as [Hlt|]; [|done].
  destruct Hne. split; [done|]. by exists t.
Qed.

Lemma cleanupStep_skipped cutoffTime st f :
  isDateKey f = false -> cleanupStep cutoffTime st f = st.
Proof. intros Hk. unfold cleanupStep. by rewrite Hk. Qed.

Lemma cleanup_fold cutoffTime files : forall st,
  let st' := foldl (cleanupStep cutoffTime) st files in
  deleted st' = deleted st ++ filter (expired cutoffTime) files
  /\ keptCount st'
     = (keptCount st + length (filter (retained cutoffTime) files))%nat
  /\ forall f, cl_dir st' !! f
               = if decide (f ∈ files /\ expired cutoffTime f) then None
                 else cl_dir st !! f.
Proof.
  induction files as [|g files IH]; intros st; cbn [foldl].
  - rewrite !filter_nil, app_nil_r. split; [done|]. split; [simpl; lia|].
    intros f. case_decide as Hc; [|done].
    destruct Hc as [Hin _]. by apply elem_of_nil in Hin.
  - rewrite !filter_cons.
    assert (Hmem : forall f, f ∈ g :: files /\ expired cutoffTime f
               <-> (f = g /\ expired cutoffTime g)
                   \/ (f ∈ files /\ expired cutoffTime f)).
    { intros f. rewrite elem_of_cons. split.
      - intros [[->|?] ?]; auto.
      - intros [[-> ?]|[? ?]]; auto. }
    destruct (decide (expired cutoffTime g)) as [He|Hne].
    + rewrite cleanupStep_expired by done.
      destruct (IH {| cl_dir := delete g (cl_dir st);
                      deleted := deleted st ++ [g];
                      keptCount := keptCount st |}) as (Hd & Hk & Hl).
      cbn [deleted keptCount cl_dir] in Hd, Hk, Hl. rewrite Hd, Hk.
      rewrite (decide_False (P := retained cutoffTime g)) by (by intros [_ ?]).
      split; [by rewrite <- app_assoc|]. split; [done|].
      intros f. rewrite Hl.
      destruct (decide (f = g)) as [->|Hfg];
        [rewrite lookup_delete_eq|rewrite lookup_delete_ne by done];
        repeat case_decide; try done; rewrite Hmem in *; tauto.
    + assert (isDateKey g = true \/ isDateKey g = false) as [Hk'|Hk']
        by (destruct (isDateKey g); auto).
      * assert (retained cutoffTime g) as Hr by done.
        rewrite (decide_True (P := retained cutoffTime g)) by done.
        rewrite cleanupStep_retained by done.
        destruct (IH {| cl_dir := cl_dir st;
                        deleted := deleted st;
                        keptCount := S (keptCount st) |}) as (Hd & Hk & Hl).
        cbn [deleted keptCount cl_dir] in Hd, Hk, Hl. rewrite Hd, Hk.
        split; [done|]. split; [simpl; lia|].
        intros f. rewrite Hl.
        repeat case_decide; try done; rewrite Hmem in *; tauto.
      * rewrite (decide_False (P := retained cutoffTime g))
          by (intros [? _]; congruence).
        rewrite cleanupStep_skipped by done.
        destruct (IH st) as (Hd & Hk & Hl). rewrite Hd, Hk.
        split; [done|]. split; [done|].
        intros f. rewrite Hl.
        repeat case_decide; try done; rewrite Hmem in *; tauto.
Qed.

Lemma dateFiles_ext (d1 d2 : gmap string File) :
  (forall f, isDateKey f = true -> is_Some (d1 !! f) <-> is_Some (d2 !! f)) ->
  dateFiles d1 = dateFiles d2.
Proof.
  intros Hext. apply sortStrings_ext, filter_readdir_perm.
  intros f Hk. apply Hext. by apply Is_true_true.
Qed.

Lemma updateHistoricalRange_idempotent artifact now (dir : gmap string File) :
  isDateKey artifact = false ->
  updateHistoricalRange artifact now (updateHistoricalRange artifact now dir)
  = updateHistoricalRange artifact now dir.
Proof.
  intros Ha.
  assert (Hsame : dateFiles (updateHistoricalRange artifact now dir)
                  = dateFiles dir).
  { apply dateFiles_ext. intros f Hk.
    rewrite updateHistoricalRange_lookup; [done|]. intros ->. congruence. }
  unfold updateHistoricalRange at 1.
  fold (dateFiles (updateHistoricalRange artifact now dir)).
  rewrite Hsame. unfold updateHistoricalRange. fold (dateFiles dir).
  destruct (dateFiles dir) as [|s l]; [done|].
  by rewrite insert_insert_eq.
Qed.

Lemma filter_none {A} (P : A -> Prop) `{forall a, Decision (P a)} (l : list A) :
  (forall a, a ∈ l -> ~ P a) -> filter P l = [].
Proof.
  intros Hall. destruct (filter P l) as [|a l'] eqn:Hf; [done|].
  assert (a ∈ filter P l) as Hin by (rewrite Hf; apply elem_of_cons; by left).
  apply list_elem_of_filter in Hin as [Hp Hin]. by destruct (Hall a Hin).
Qed.

(** C9: a second sweep at the same instant deletes nothing and leaves the
    directory as the first sweep left it.  The first sweep deletes exactly
    the date-named files dated strictly earlier than [now] minus two years
    of 365 days, and keeps every other file but the range artifact as it
    was. *)
Theorem cleanup_idempotent now history :
  cleanup now (cleanup now history).1 = ((cleanup now history).1, [])
  /\ (forall f,
        f ∈ (cleanup now history).2
        <-> exists dir, history = Some dir /\ is_Some (dir !! f)
              /\ expired (now - 2 * 365 * 24 * 60 * 60 * 1000) f)
  /\ (forall f dir1,
        f ∈ (cleanup now history).2 ->
        (cleanup now history).1 = Some dir1 -> dir1 !! f = None)
  /\ (forall f dir dir1,
        history = Some dir -> (cleanup now history).1 = Some dir1 ->
        f ∉ (cleanup now history).2 -> f <> "range" ->
        dir1 !! f = dir !! f).
Proof.
  destruct history as [dir|]; simpl.
  2:{ split; [done|]. split; [|split; [done|done]].
      intros f. split; [by intros ?%elem_of_nil|]. by intros (? & ? & _). }
  change (2 * 365 * 24 * 60 * 60 * 1000) with TWO_YEARS_MS.
  set (cutoffTime := now - TWO_YEARS_MS).
  destruct (cleanup_fold cutoffTime (readdir dir) (mkCleanup dir [] 0))
    as (Hd & Hk & Hl). simpl in Hd, Hk, Hl.
  set (st := foldl (cleanupStep cutoffTime) (mkCleanup dir [] 0) (readdir dir))
    in *.
  assert (HdirA : forall f, cl_dir st !! f
              = if decide (expired cutoffTime f) then None else dir !! f).
  { intros f. rewrite Hl.
    destruct (decide (expired cutoffTime f)) as [He|Hne].
    - destruct (decide (f ∈ readdir dir /\ expired cutoffTime f)) as [|Hn];
        [done|].
      destruct (dir !! f) eqn:Hf; [|done]. destruct Hn. split; [|done].
      apply elem_of_readdir. by eexists.
    - rewrite decide_False; [done|]. by intros [_ ?]. }
  assert (Hmem : forall f, f ∈ deleted st
              <-> is_Some (dir !! f) /\ expired cutoffTime f).
  { intros f. rewrite Hd, list_elem_of_filter, elem_of_readdir. tauto. }
  set (first := if (0 <? length (deleted st))%nat || (0 <? keptCount st)%nat
                then (Some (updateHistoricalRange "range" now (cl_dir st)),
                      deleted st)
                else (Some (cl_dir st), deleted st)).
  assert (Hfirst : exists dir1, first = (Some dir1, deleted st)
             /\ (((forall f, isDateKey f = true -> dir1 !! f = cl_dir st !! f)
                  /\ (forall f, f <> "range" -> dir1 !! f = cl_dir st !! f)
                  /\ updateHistoricalRange "range" now dir1 = dir1)
                 \/ (dir1 = dir /\ deleted st = [] /\ keptCount st = O))).
  { unfold first.
    destruct ((0 <? length (deleted st))%nat || (0 <? keptCount st)%nat)
      eqn:Hcond.
    - eexists. split; [done|]. left. split; [|split].
      + intros f Hf. apply updateHistoricalRange_lookup. intros ->. done.
      + intros f Hf. by apply updateHistoricalRange_lookup.
      + by apply updateHistoricalRange_idempotent.
    - apply orb_false_iff in Hcond as [Hc1 Hc2].
      apply Nat.ltb_ge in Hc1, Hc2.
      assert (deleted st = []) as Hnil by (apply length_zero_iff_nil; lia).
      exists (cl_dir st). split; [done|]. right. split; [|split; [done|lia]].
      apply map_eq. intros f. rewrite HdirA.
      destruct (decide (expired cutoffTime f)) as [He|]; [|done].
      destruct (dir !! f) eqn:Hf; [|done].
      assert (f ∈ deleted st) as Hin by (apply Hmem; split; [by eexists|done]).
      rewrite Hnil in Hin. by apply elem_of_nil in Hin. }
  destruct Hfirst as (dir1 & Hfst & Hcases). rewrite Hfst. simpl.
  assert (Hlook : forall f, isDateKey f = true -> dir1 !! f = cl_dir st !! f).
  { destruct Hcases as [(? & _ & _)|(-> & Hnil & _)]; [done|].
    intros f _. rewrite HdirA.
    destruct (decide (expired cutoffTime f)) as [He|]; [|done].
    destruct (dir !! f) eqn:Hf; [|done].
    assert (f ∈ deleted st) as Hin by (apply Hmem; split; [by eexists|done]).
    rewrite Hnil in Hin. by apply elem_of_nil in Hin. }
  assert (Hnone : forall f, f ∈ readdir dir1 -> ~ expired cutoffTime f).
  { intros f Hin He. apply elem_of_readdir in Hin as [c Hc].
    rewrite Hlook in Hc by apply He. rewrite HdirA in Hc.
    by rewrite decide_True in Hc. }
  destruct (cleanup_fold cutoffTime (readdir dir1) (mkCleanup dir1 [] 0))
    as (Hd2 & Hk2 & Hl2). simpl in Hd2, Hk2, Hl2.
  set (st2 := foldl (cleanupStep cutoffTime) (mkCleanup dir1 [] 0)
                (readdir dir1)) in *.
  rewrite (filter_none _ _ Hnone) in Hd2.
  assert (Hdir2 : cl_dir st2 = dir1).
  { apply map_eq. intros f. rewrite Hl2. rewrite decide_False; [done|].
    intros [Hin He]. by apply (Hnone f). }
  split; [|split; [|split]].
  - fold cutoffTime. fold st2. rewrite Hd2, Hdir2. simpl.
    destruct (0 <? keptCount st2)%nat eqn:Hk2'; [|done].
    destruct Hcases as [(_ & _ & ->)|(-> & Hnil & Hk0)]; [done|].
    exfalso. apply Nat.ltb_lt in Hk2'.
    rewrite Hk2 in Hk2'. rewrite Hk, Hk0 in *. simpl in *. lia.
  - intros f. rewrite Hmem. split.
    + intros [? ?]. by exists dir.
    + intros (dir' & [= <-] & ? & ?). done.
  - intros f dir1' Hin [= <-].
    apply Hmem in Hin as [_ He]. rewrite Hlook by apply He.
    rewrite HdirA. by rewrite decide_True.
  - intros f dir' dir1' [= <-] [= <-] Hnin Hrange.
    assert (dir1 !! f = cl_dir st !! f) as ->.
    { destruct Hcases as [(_ & Hr & _)|(-> & Hnil & _)]; [by apply Hr|].
      rewrite HdirA. destruct (decide (expired cutoffTime f)) as [He|]; [|done].
      destruct (dir !! f) eqn:Hf; [|done].
      destruct Hnin. apply Hmem. split; [by eexists|done]. }
    rewrite HdirA. destruct (decide (expired cutoffTime f)) as [He|]; [|done].
    destruct (dir !! f) eqn:Hf; [|done].
    destruct Hnin. apply Hmem. split; [by eexists|done].
Qed.
End CleanupFacts.

(** ** The properties on concrete inputs *)

Lemma generateRecentFile_window_witness :
  exists readings,
    @recentReadings calendarDates jan7noon (delete "2024-01-06" januaryDir)
    = Some readings
    /\ hr_timestamp <$> readings = [hourOf 0 9; hourOf 4 3; hourOf 4 14].
Proof.
  destruct (@generateRecentFile_window calendarDates jan7noon
              (delete "2024-01-06" januaryDir))
    as (readings & Hr & _).
  - intros f [content Hf] [Hk _].
    apply elem_of_map_to_list in Hf. vm_compute in Hf.
    repeat (apply elem_of_cons in Hf as [[= -> ->]|Hf]);
      try (by apply elem_of_nil in Hf); try discriminate Hk; by eexists.
  - exists readings. split; [done|].
    vm_compute in Hr. inversion Hr. reflexivity.
Defined.

(** C3, as the specification words it, fails: with the corrupt bucket of
    6 January in the window nothing is recomputed and the artifact keeps
    its old content, where skipping that bucket would give the three
    readings of 1 and 5 January. *)
Lemma generateRecentFile_corrupt_counterexample :
  januaryDir !! "2024-01-06" = Some Unparseable
  /\ fmap (M := list) hr_timestamp <$>
       @recentReadings calendarDates jan7noon (delete "2024-01-06" januaryDir)
     = Some [hourOf 0 9; hourOf 4 3; hourOf 4 14]
  /\ @recentReadings calendarDates jan7noon januaryDir = None
  /\ @generateRecentFile calendarDates jan7noon januaryDir !! "recent"
     = Some (RecentFile []).
Proof. repeat split; by vm_compute. Qed.

Lemma generateRecentFile_corrupt_bucket_witness :
  @recentReadings calendarDates jan7noon januaryDir = None
  /\ @generateRecentFile calendarDates jan7noon januaryDir = januaryDir.
Proof.
  destruct (@generateRecentFile_corrupt_bucket calendarDates jan7noon januaryDir)
    as [Hin _].
  apply (Hin "2024-01-06").
  - by eexists.
  - split; [reflexivity|]. exists (hourOf 5 0). split; [reflexivity|].
    by vm_compute.
  - intros hours. by vm_compute.
Defined.

Lemma updateHistoricalData_last_write_wins_witness :
  exists dir1 dir2 hours2,
    @updateHistoricalData calendarDates firstCheck (hourOf 4 14 + 300000)
      (Some januaryDir) = Some dir1
    /\ @updateHistoricalData calendarDates secondCheck (hourOf 4 14 + 2400000)
         (Some dir1) = Some dir2
    /\ dir2 !! "2024-01-05" = Some (DailyFile hours2)
    /\ hours2 !! 14%nat
       = Some (Some (newReading secondCheck (hourOf 4 14 + 2400000))).
Proof.
  assert (exists dir1,
             @updateHistoricalData calendarDates firstCheck
               (hourOf 4 14 + 300000) (Some januaryDir) = Some dir1)
    as [dir1 Hu1] by (vm_compute; eexists; reflexivity).
  destruct (@updateHistoricalData_last_write_wins calendarDates
              firstCheck secondCheck (hourOf 4 14 + 300000)
              (hourOf 4 14 + 2400000) (Some januaryDir) dir1)
    as (dir2 & hours1 & hours2 & Hu2 & _ & _ & Hd2 & Hslot & _);
    [vm_compute; reflexivity | vm_compute; reflexivity | exact Hu1 |].
  assert (toISODate (hr_timestamp (newReading firstCheck (hourOf 4 14 + 300000)))
          = "2024-01-05") as Hkey by (vm_compute; reflexivity).
  assert (getUTCHours (hr_timestamp (newReading firstCheck (hourOf 4 14 + 300000)))
          = 14%nat) as Hhour by (vm_compute; reflexivity).
  rewrite Hkey in Hd2. rewrite Hhour in Hslot.
  exists dir1, dir2, hours2.
  split; [exact Hu1|]. split; [exact Hu2|]. split; [exact Hd2|exact Hslot].
Defined.

Lemma updateHistoricalData_empty_witness :
  exists dir' hours',
    januaryDir !! "2024-01-05"
    = Some (DailyFile (array_set
                         (array_set (replicate 24 None) 14
                            (readingAt (hourOf 4 14) light 67))
                         3 (readingAt (hourOf 4 3) moderate 33)))
    /\ @updateHistoricalData calendarDates [] (hourOf 4 14 + 2400000)
         (Some januaryDir) = Some dir'
    /\ dir' !! "2024-01-05" = Some (DailyFile hours')
    /\ hours' !! 14%nat
       = Some (Some {| hr_timestamp := hourOf 4 14 + 2400000; regions := ∅ |}).
Proof.
  destruct (@updateHistoricalData_empty calendarDates (hourOf 4 14 + 2400000)
              (Some januaryDir))
    as (dir' & hours & hours' & Hu & _ & Hd & _ & Hslot & _).
  - intros content Hc. vm_compute in Hc. inversion Hc. right. by eexists.
  - assert (toISODate (hourOf 4 14 + 2400000) = "2024-01-05") as Hkey
      by (vm_compute; reflexivity).
    assert (getUTCHours (hourOf 4 14 + 2400000) = 14%nat) as Hhour
      by (vm_compute; reflexivity).
    rewrite Hkey in Hd. rewrite Hhour in Hslot.
    exists dir', hours'.
    split; [vm_compute; reflexivity|]. split; [exact Hu|].
    split; [exact Hd|exact Hslot].
Defined.

Lemma cleanup_idempotent_witness :
  (@cleanup calendarDates jan2026 (Some januaryDir)).2 = ["2024-01-01"]
  /\ @cleanup calendarDates jan2026
       (@cleanup calendarDates jan2026 (Some januaryDir)).1
     = ((@cleanup calendarDates jan2026 (Some januaryDir)).1, []).
Proof.
  split; [by vm_compute|].
  apply (@cleanup_idempotent calendarDates jan2026 (Some januaryDir)).
Defined.

(** * More properties of the code *)

(** ** More on the classifier and the analysis *)

Lemma num_ge_Fin_ofZ (q : Q) (b : Z) :
  num_ge (Fin q) (ofZ b) = true <-> (inject_Z b <= q)%Q.
Proof. unfold num_ge, ofZ. apply Qle_bool_iff. Qed.

Lemma num_ge_Fin_ofZ_false (q : Q) (b : Z) :
  num_ge (Fin q) (ofZ b) = false <-> (q < inject_Z b)%Q.
Proof.
  rewrite <- not_true_iff_false, num_ge_Fin_ofZ. split.
  - apply Qnot_le_lt.
  - apply Qlt_not_le.
Qed.

(** X1: on any rational score, whole or not, the classifier answers clear
    from 80, light from 50 and below 80, moderate from 20 and below 50, and
    heavy below 20; NaN and minus infinity are heavy, plus infinity is
    clear. *)
Theorem getFogLevel_numbers (q : Q) :
  (getFogLevel (Fin q) = clear <-> (inject_Z 80 <= q)%Q)
  /\ (getFogLevel (Fin q) = light <-> (inject_Z 50 <= q)%Q /\ (q < inject_Z 80)%Q)
  /\ (getFogLevel (Fin q) = moderate
      <-> (inject_Z 20 <= q)%Q /\ (q < inject_Z 50)%Q)
  /\ (getFogLevel (Fin q) = heavy <-> (q < inject_Z 20)%Q)
  /\ getFogLevel NaN = heavy
  /\ getFogLevel NegInf = heavy
  /\ getFogLevel PosInf = clear.
Proof.
  unfold getFogLevel.
  destruct (num_ge (Fin q) (ofZ 80)) eqn:H80;
    destruct (num_ge (Fin q) (ofZ 50)) eqn:H50;
    destruct (num_ge (Fin q) (ofZ 20)) eqn:H20;
    rewrite ?num_ge_Fin_ofZ, ?num_ge_Fin_ofZ_false in *;
    change (inject_Z 80) with (80 # 1)%Q in *;
    change (inject_Z 50) with (50 # 1)%Q in *;
    change (inject_Z 20) with (20 # 1)%Q in *;
    repeat split; intros; try done; try lra.
Qed.

Section MoreDetectorFacts.
Context `{Collaborators}.

(** The loop pairs every landmark with its detail. *)
Lemma checkLandmarks_details buf lms : forall v0 d0 v d,
  checkLandmarks buf lms v0 d0 = Some (v, d) ->
  exists new, d = d0 ++ new
    /\ Forall2 (fun lm det =>
                  name det = lt_name lm
                  /\ checkLandmarkVisibility buf lm
                     = Some (visible det, similarity det))
         lms new.
Proof.
  induction lms as [|lm lms IH]; intros v0 d0 v d Hc; simpl in Hc.
  - inversion Hc; subst. exists []. by rewrite app_nil_r.
  - destruct (checkLandmarkVisibility buf lm) as [[vis sim]|] eqn:Hlm; [|done].
    apply IH in Hc as (new & -> & Hall).
    exists (mkLandmarkDetail (lt_name lm) vis sim :: new).
    rewrite <- app_assoc. split; [done|]. by constructor.
Qed.

Lemma checkLandmarks_None buf lms : forall v0 d0,
  checkLandmarks buf lms v0 d0 = None
  <-> exists lm, lm ∈ lms /\ checkLandmarkVisibility buf lm = None.
Proof.
  induction lms as [|lm lms IH]; intros v0 d0; simpl.
  - split; [done|]. by intros (lm & ?%elem_of_nil & _).
  - destruct (checkLandmarkVisibility buf lm) as [[vis sim]|] eqn:Hlm.
    + rewrite IH. split.
      * intros (lm' & Hin & Hn). exists lm'. split; [|done].
        apply elem_of_cons. by right.
      * intros (lm' & [->|Hin]%elem_of_cons & Hn); [congruence|].
        by exists lm'.
    + split; [|done]. intros _. exists lm. split; [|done].
      apply elem_of_cons. by left.
Qed.

(** X2: the analysis of a location without landmarks returns the score
    NaN (zero divided by zero), the level heavy, no visible landmark and
    no detail. *)
Theorem analyzeFogLevel_no_landmarks locationName now r :
  analyzeFogLevel locationName now = Some r ->
  totalLandmarks r = 0 ->
  visibilityScore r = NaN
  /\ fogLevel r = heavy
  /\ landmarksVisible r = 0
  /\ landmarkDetails r = [].
Proof.
  intros Ha Ht.
  destruct (analyzeFogLevel_counts _ _ _ Ha) as (_ & Hlen & Hv).
  destruct (analyzeFogLevel_inv _ _ _ Ha) as (config & buf & _ & _ & _ & _ & Hs & Hf).
  assert (landmarksVisible r = 0) as Hv0 by lia.
  rewrite Hs, Hf, Hv0, Ht. repeat split; try done.
  destruct (landmarkDetails r); [done|]. simpl in Hlen. lia.
Qed.

(** X3: a returned analysis carries the location of the configuration, no
    region and the time of the call; it has one detail for each configured
    landmark, in the order of the configuration, with the name of the
    landmark and the outcome of its comparison; the two counts are the
    number of details and the number of visible ones. *)
Theorem analyzeFogLevel_details locationName now r :
  analyzeFogLevel locationName now = Some r ->
  exists config buf,
    readConfig locationName = Some config
    /\ fetchWebcamImage (source config) = Some buf
    /\ location r = lc_location config
    /\ region r = None
    /\ timestamp r = now
    /\ Forall2 (fun lm det =>
                  name det = lt_name lm
                  /\ checkLandmarkVisibility buf lm
                     = Some (visible det, similarity det))
         (lc_landmarks config) (landmarkDetails r)
    /\ totalLandmarks r = Z.of_nat (length (landmarkDetails r))
    /\ landmarksVisible r
       = Z.of_nat (length (filter (fun det => visible det = true)
                             (landmarkDetails r))).
Proof.
  intros Ha.
  destruct (analyzeFogLevel_counts _ _ _ Ha) as (Hv & Hlen & _).
  unfold analyzeFogLevel in Ha.
  apply bind_Some in Ha as (config & Hcfg & Ha).
  apply bind_Some in Ha as (buf & Hbuf & Ha).
  apply bind_Some in Ha as ([v d] & Hl & Ha).
  inversion Ha; subst; clear Ha. simpl in *.
  exists config, buf.
  apply checkLandmarks_details in Hl as (new & -> & Hall).
  by repeat split.
Qed.

(** X4: the analysis throws exactly when the configuration cannot be read,
    or the image cannot be fetched, or the comparison of some landmark
    throws. *)
Theorem analyzeFogLevel_throws locationName now :
  analyzeFogLevel locationName now = None
  <-> readConfig locationName = None
      \/ exists config,
           readConfig locationName = Some config
           /\ (fetchWebcamImage (source config) = None
               \/ exists buf lm,
                    fetchWebcamImage (source config) = Some buf
                    /\ lm ∈ lc_landmarks config
                    /\ checkLandmarkVisibility buf lm = None).
Proof.
  unfold analyzeFogLevel.
  destruct (readConfig locationName) as [config|] eqn:Hcfg; simpl.
  2:{ split; [by left|done]. }
  destruct (fetchWebcamImage (source config)) as [buf|] eqn:Hbuf; simpl.
  2:{ split; [|done]. intros _. right. exists config. split; [done|]. by left. }
  destruct (checkLandmarks buf (lc_landmarks config) 0 []) as [[v d]|] eqn:Hl;
    simpl.
  - split; [done|].
    intros [?|(config' & [= <-] & [Hn|(buf' & lm & Hb & Hin & Hn)])];
      try congruence.
    assert (buf' = buf) as -> by congruence.
    assert (checkLandmarks buf (lc_landmarks config) 0 [] = None) as Hnone
      by (apply checkLandmarks_None; by exists lm).
    congruence.
  - split; [|done]. intros _. right. exists config. split; [done|]. right.
    apply checkLandmarks_None in Hl as (lm & Hin & Hn). by exists buf, lm.
Qed.



End MoreDetectorFacts.

Section ComparisonFacts.
Context `{Collaborators}.

End ComparisonFacts.

(** ** More on the region map *)

Lemma Map_set_fresh {K V} `{EqDecision K} (m : list (K * V)) k v :
  k ∉ m.*1 -> Map_set m k v = m ++ [(k, v)].
Proof.
  induction m as [|[k' v'] m IH]; intros Hk; [done|].
  simpl in *. apply not_elem_of_cons in Hk as [Hne Hk].
  destruct (decide (k' = k)) as [->|_]; [done|].
  by rewrite IH.
Qed.

Lemma regionMap_snoc results r :
  regionMap (results ++ [r]) = Map_set (regionMap results) (region r) r.
Proof. unfold regionMap. by rewrite foldl_snoc. Qed.

Lemma regionMap_keys results :
  (regionMap results).*1 = reverse (remove_dups (reverse (region <$> results))).
Proof.
  induction results as [|r results IH] using rev_ind; [done|].
  rewrite regionMap_snoc, Map_set_keys, fmap_app, reverse_app. simpl.
  rewrite IH.
  destruct (decide_rel elem_of (region r) (reverse (region <$> results)))
    as [Hin|Hnin].
  - rewrite decide_True; [done|].
    by rewrite elem_of_reverse, elem_of_remove_dups.
  - rewrite decide_False.
    + by rewrite reverse_cons.
    + by rewrite elem_of_reverse, elem_of_remove_dups.
Qed.

(** X8: the region map lists the regions in the order of their first
    result, and the collection has one record for each distinct region;
    when the results all have different regions, the collection is the
    list of their records in the order of the results. *)
Theorem regionMap_order (results : list VisibilityResult) :
  (regionMap results).*1 = reverse (remove_dups (reverse (region <$> results)))
  /\ (NoDup (region <$> results) ->
      regionMap results = (fun r => (region r, r)) <$> results
      /\ allRegions results = statusOf <$> results)
  /\ length (allRegions results) = length (remove_dups (region <$> results)).
Proof.
  split; [apply regionMap_keys|]. split.
  - intros Hnd.
    assert (Hmap : regionMap results = (fun r => (region r, r)) <$> results).
    { induction results as [|r results IH] using rev_ind; [done|].
      rewrite fmap_app in Hnd. apply NoDup_app in Hnd as (Hnd & Hfresh & _).
      rewrite regionMap_snoc, fmap_app, IH by done. simpl.
      apply Map_set_fresh. rewrite <- list_fmap_compose.
      intros Hin. apply (Hfresh (region r)); [|by left].
      apply list_elem_of_fmap in Hin as (r' & Hr' & Hin).
      apply list_elem_of_fmap. by exists r'. }
    split; [done|].
    unfold allRegions. rewrite Hmap, <- !list_fmap_compose.
    by apply list_fmap_ext; intros.
  - unfold allRegions. rewrite !length_fmap.
    rewrite <- (length_fmap fst), regionMap_keys, length_reverse.
    apply Permutation_length, NoDup_Permutation; try apply NoDup_remove_dups.
    intros k. by rewrite !elem_of_remove_dups, elem_of_reverse.
Qed.

(** ** The reading of a run *)

Section ReadingFacts.

Lemma newReading_fold (results : list VisibilityResult) key :
  foldl (fun regions result =>
           setProperty regions (propertyKey (region result))
             (readingOf result))
    (∅ : gmap string RegionReading) results !! key
  = if String.eqb key "__proto__" then None
    else readingOf
           <$> last (filter (fun r => propertyKey (region r) = key) results).
Proof.
  induction results as [|r results IH] using rev_ind.
  - simpl. by destruct (String.eqb key "__proto__").
  - rewrite foldl_snoc, filter_app, last_app. unfold setProperty at 1.
    destruct (String.eqb_spec (propertyKey (region r)) "__proto__")
      as [Hp|Hp].
    + rewrite IH. destruct (String.eqb_spec key "__proto__") as [Hk|Hk];
        [done|].
      rewrite filter_cons_False by congruence. simpl.
      by destruct (last _).
    + destruct (decide (propertyKey (region r) = key)) as [Hk|Hk].
      * rewrite filter_cons_True by done. simpl.
        rewrite Hk, lookup_insert_eq. subst key.
        by rewrite (proj2 (String.eqb_neq _ _) Hp).
      * rewrite filter_cons_False by done. simpl.
        rewrite lookup_insert_ne by done. rewrite IH.
        destruct (String.eqb key "__proto__"); [done|].
        by destruct (last _).
Qed.

(** X9: the reading of a run is stamped with the time of the first
    result, or with the current time when there is none.  Under a region
    key other than [__proto__] it holds the counts of the last result with
    that key; it has no other keys, and none for [__proto__], which an
    assignment to a plain object does not store.  A result without region
    counts under the key [undefined]. *)
Theorem newReading_regions (results : list VisibilityResult) (now : Z) :
  hr_timestamp (newReading results now)
  = default now (timestamp <$> head results)
  /\ (forall key,
        regions (newReading results now) !! key
        = if String.eqb key "__proto__" then None
          else readingOf
                 <$> last (filter (fun r => propertyKey (region r) = key)
                             results))
  /\ (forall key,
        is_Some (regions (newReading results now) !! key)
        <-> key <> "__proto__"
            /\ exists r, r ∈ results /\ propertyKey (region r) = key).
Proof.
  assert (Hfold : forall key,
    regions (newReading results now) !! key
    = if String.eqb key "__proto__" then None
      else readingOf
             <$> last (filter (fun r => propertyKey (region r) = key)
                         results)).
  { intros key. apply newReading_fold. }
  split; [by destruct results|]. split; [done|].
  intros key. rewrite Hfold.
  destruct (String.eqb_spec key "__proto__") as [Hk|Hk].
  - split; [by intros [? ?]|]. by intros [? _].
  - rewrite fmap_is_Some. split.
    + intros [r Hr]. apply last_filter_Some in Hr. split; [done|]. by exists r.
    + intros (_ & r & Hin & Hr).
      destruct (last _) eqn:Hl; [done|].
      pose proof (proj1 (last_filter_None
        (fun r => propertyKey (region r) = key) results) Hl) as Hn.
      by destruct (Hn r Hin).
Qed.
End ReadingFacts.

(** ** The range artifact *)

Lemma List_last_elem {A} (l : list A) (a d : A) : List.last (a :: l) d ∈ a :: l.
Proof.
  revert a. induction l as [|b l IH]; intros a; [by left|].
  right. apply IH.
Qed.

Lemma StronglySorted_last {A} (R : relation A) `{!Reflexive R} (l : list A)
    (d : A) :
  StronglySorted R l -> forall x, x ∈ l -> R x (List.last l d).
Proof.
  induction 1 as [|a l Hs IH Hall]; intros x Hx; [by apply elem_of_nil in Hx|].
  destruct l as [|b l]; [by apply list_elem_of_singleton in Hx as ->|].
  change (List.last (a :: b :: l) d) with (List.last (b :: l) d).
  apply elem_of_cons in Hx as [->|Hx]; [|by apply IH].
  rewrite Forall_forall in Hall. apply Hall, List_last_elem.
Qed.

Lemma elem_of_dateFiles (dir : gmap string File) f :
  f ∈ dateFiles dir <-> is_Some (dir !! f) /\ isDateKey f = true.
Proof.
  unfold dateFiles. rewrite sortStrings_perm, list_elem_of_filter.
  rewrite elem_of_readdir, Is_true_true. tauto.
Qed.

Lemma dateFiles_length (dir : gmap string File) :
  length (dateFiles dir) = length (filter (fun f => isDateKey f) (readdir dir)).
Proof. unfold dateFiles. by rewrite sortStrings_perm. Qed.

Lemma updateHistoricalRange_dateFiles artifact now (dir : gmap string File) :
  updateHistoricalRange artifact now dir
  = match dateFiles dir with
    | [] => dir
    | startDate :: _ =>
        <[artifact := RangeFile startDate (List.last (dateFiles dir) startDate)
                        (length (dateFiles dir)) now]> dir
    end.
Proof. reflexivity. Qed.

Lemma updateHistoricalRange_none artifact now (dir : gmap string File) :
  (forall f, is_Some (dir !! f) -> isDateKey f = false) ->
  updateHistoricalRange artifact now dir = dir.
Proof.
  intros Hno. rewrite updateHistoricalRange_dateFiles.
  destruct (dateFiles dir) as [|s l] eqn:Hd; [done|].
  assert (Hs : s ∈ dateFiles dir) by (rewrite Hd; by left).
  apply elem_of_dateFiles in Hs as [Hs Hk].
  apply Hno in Hs. congruence.
Qed.

Lemma updateHistoricalRange_some artifact now (dir : gmap string File) f0 :
  is_Some (dir !! f0) -> isDateKey f0 = true ->
  exists startDate endDate,
    updateHistoricalRange artifact now dir
    = <[artifact := RangeFile startDate endDate
                      (length (filter (fun f => isDateKey f) (readdir dir)))
                      now]> dir
    /\ (is_Some (dir !! startDate) /\ isDateKey startDate = true)
    /\ (is_Some (dir !! endDate) /\ isDateKey endDate = true)
    /\ forall f, is_Some (dir !! f) -> isDateKey f = true ->
                 String.le startDate f /\ String.le f endDate.
Proof.
  intros Hin Hkey. rewrite updateHistoricalRange_dateFiles.
  assert (H0 : f0 ∈ dateFiles dir) by by apply elem_of_dateFiles.
  pose proof (dateFiles_length dir) as Hlen.
  assert (Hsorted : StronglySorted String.le (dateFiles dir)).
  { apply Sorted_StronglySorted; [apply _|]. apply sortStrings_Sorted. }
  assert (Hmem : forall f, f ∈ dateFiles dir
                           <-> is_Some (dir !! f) /\ isDateKey f = true)
    by apply elem_of_dateFiles.
  destruct (dateFiles dir) as [|s l] eqn:Hd; [by apply elem_of_nil in H0|].
  exists s, (List.last (s :: l) s). rewrite Hlen.
  split; [done|]. split; [apply Hmem; by left|].
  split; [apply Hmem, List_last_elem|].
  intros f Hf Hk. assert (Hfl : f ∈ s :: l) by by apply Hmem.
  split; [|by apply (StronglySorted_last String.le)].
  apply StronglySorted_inv in Hsorted as [_ Hall].
  rewrite Forall_forall in Hall.
  apply elem_of_cons in Hfl as [->|Hfl]; [done|by apply Hall].
Qed.

(** X10: with no date-named file in the directory the range artifact is
    not written.  Otherwise it holds the least and the greatest of the
    date-named files, in the order of strings, as start and end, the
    number of these files and the time of the update; no other file
    changes. *)
Theorem updateHistoricalRange_covers artifact now (dir : gmap string File) :
  ((forall f, is_Some (dir !! f) -> isDateKey f = false) ->
   updateHistoricalRange artifact now dir = dir)
  /\ (forall f0, is_Some (dir !! f0) -> isDateKey f0 = true ->
      exists startDate endDate,
        updateHistoricalRange artifact now dir !! artifact
        = Some (RangeFile startDate endDate
                  (length (filter (fun f => isDateKey f) (readdir dir))) now)
        /\ (is_Some (dir !! startDate) /\ isDateKey startDate = true)
        /\ (is_Some (dir !! endDate) /\ isDateKey endDate = true)
        /\ (forall f, is_Some (dir !! f) -> isDateKey f = true ->
                      String.le startDate f /\ String.le f endDate))
  /\ (forall k, k <> artifact ->
                updateHistoricalRange artifact now dir !! k = dir !! k).
Proof.
  split; [apply updateHistoricalRange_none|]. split.
  - intros f0 Hin Hk.
    destruct (updateHistoricalRange_some artifact now dir f0 Hin Hk)
      as (s & e & -> & Hs & He & Hb).
    exists s, e. by rewrite lookup_insert_eq.
  - intros k Hk. by apply updateHistoricalRange_lookup.
Qed.

(** ** The derived artifacts *)

Section DerivedFacts.
Context `{DateParser}.

Lemma recentReadings_insert_artifact now (dir : gmap string File) k content :
  isDateKey k = false ->
  recentReadings now (<[k := content]> dir) = recentReadings now dir.
Proof.
  intros Hk. unfold recentReadings.
  assert (Hfiles : recentFiles now (<[k := content]> dir) = recentFiles now dir).
  { apply recentFiles_ext. intros f [Hf _].
    rewrite lookup_insert_ne; [done|]. intros ->. congruence. }
  rewrite Hfiles.
  rewrite (collectReadings_ext (<[k := content]> dir) dir); [done|].
  intros f Hf. apply elem_of_recentFiles in Hf as [_ [Hf _]].
  rewrite lookup_insert_ne; [done|]. intros ->. congruence.
Qed.

Lemma dateFiles_insert_artifact (dir : gmap string File) k content :
  isDateKey k = false -> dateFiles (<[k := content]> dir) = dateFiles dir.
Proof.
  intros Hk. apply dateFiles_ext. intros f Hf.
  rewrite lookup_insert_ne; [done|]. intros ->. congruence.
Qed.

Lemma updateHistoricalRange_insert_artifact artifact now
    (dir : gmap string File) k content :
  isDateKey k = false -> k <> artifact ->
  updateHistoricalRange artifact now (<[k := content]> dir)
  = <[k := content]> (updateHistoricalRange artifact now dir).
Proof.
  intros Hk Hne. rewrite !updateHistoricalRange_dateFiles.
  rewrite dateFiles_insert_artifact by done.
  destruct (dateFiles dir); [done|]. by apply insert_insert_ne.
Qed.

(** X11: recomputing the recent rollup a second time changes nothing more;
    the rollup and the index do not read each other, so that refreshing
    them in either order gives the same directory. *)
Theorem derived_artifacts_stable now now' (dir : gmap string File) :
  generateRecentFile now (generateRecentFile now dir)
  = generateRecentFile now dir
  /\ updateHistoricalRange "index" now' (generateRecentFile now dir)
     = generateRecentFile now (updateHistoricalRange "index" now' dir)
  /\ recentReadings now (updateHistoricalRange "index" now' dir)
     = recentReadings now dir
  /\ dateFiles (generateRecentFile now dir) = dateFiles dir.
Proof.
  assert (Hrange : recentReadings now (updateHistoricalRange "index" now' dir)
                   = recentReadings now dir).
  { rewrite updateHistoricalRange_dateFiles. destruct (dateFiles dir); [done|].
    by apply recentReadings_insert_artifact. }
  split; [|split; [|split]].
  - unfold generateRecentFile at 2 3.
    destruct (recentReadings now dir) as [readings|] eqn:Hr.
    + unfold generateRecentFile.
      rewrite recentReadings_insert_artifact, Hr by done.
      apply insert_insert_eq.
    + unfold generateRecentFile. by rewrite Hr.
  - unfold generateRecentFile. rewrite Hrange.
    destruct (recentReadings now dir); [|done].
    by apply updateHistoricalRange_insert_artifact.
  - done.
  - unfold generateRecentFile. destruct (recentReadings now dir); [|done].
    by apply dateFiles_insert_artifact.
Qed.
End DerivedFacts.

(** ** The name of a daily file *)

Lemma civil_from_days_year (days : Z) :
  let year := (civil_from_days days).1.1 in
  (0 <= year <-> -719528 <= days) /\ (year <= 9999 <-> days < 2932897).
Proof.
  unfold civil_from_days. cbv zeta. simpl fst.
  set (z := days + 719468).
  set (era := z / 146097).
  set (doe := z - era * 146097).
  set (yoe := (doe - doe / 1460 + doe / 36524 - doe / 146096) / 365).
  set (doy := doe - (365 * yoe + yoe / 4 - yoe / 100)).
  set (mp := (5 * doy + 2) / 153).
  assert (Hdoe : 0 <= doe < 146097).
  { unfold doe, era. pose proof (Z.mod_pos_bound z 146097 eq_refl).
    rewrite Z.mod_eq in H by done. lia. }
  assert (Hyoe : 0 <= yoe <= 399).
  { unfold yoe. Z.div_mod_to_equations. lia. }
  assert (Hdoy : 0 <= doy <= 365).
  { unfold doy, yoe. Z.div_mod_to_equations. lia. }
  assert (Hmp : 0 <= mp <= 11).
  { unfold mp. Z.div_mod_to_equations. lia. }
  assert (Hz : z = era * 146097 + doe) by (unfold doe; lia).
  assert (Hlate : yoe = 399 -> (10 <= mp <-> 146037 <= doe)).
  { intros Hy. unfold mp, doy. rewrite Hy. Z.div_mod_to_equations. lia. }
  assert (H399 : yoe = 399 -> 145731 <= doe).
  { unfold yoe. Z.div_mod_to_equations. lia. }
  assert (Hlt399 : yoe < 399 -> doe < 145731).
  { unfold yoe. Z.div_mod_to_equations. lia. }
  destruct (mp <? 10) eqn:Hm; [apply Z.ltb_lt in Hm|apply Z.ltb_ge in Hm].
  - replace (mp + 3 <=? 2) with false by (symmetry; apply Z.leb_gt; lia).
    split; split; intros ?; lia.
  - replace (mp - 9 <=? 2) with true by (symmetry; apply Z.leb_le; lia).
    split; split; intros ?; lia.
Qed.

Lemma isDateKey_isoYear year month day :
  isDateKey (isoYear year +:+ "-" +:+ zeroPad 2 month "" +:+ "-"
             +:+ zeroPad 2 day "")
  = (0 <=? year) && (year <=? 9999).
Proof.
  unfold isoYear. destruct ((0 <=? year) && (year <=? 9999)).
  - cbv -[digitChar Z.div isDigit]. by rewrite !digitChar_isDigit.
  - cbv -[digitChar Z.div Z.abs Z.leb isDigit]. reflexivity.
Qed.

(** X12: the name under which the daily file of a reading is written
    passes the date-name test of the index, the rollup and the clean-up
    exactly for the instants of the years 0000 to 9999. *)
Theorem toISODate_isDateKey (t : Z) :
  isDateKey (toISODate t) = true
  <-> -62167219200000 <= t < 253402300800000.
Proof.
  unfold toISODate.
  pose proof (civil_from_days_year (t / MS_PER_DAY)) as Hy. cbv zeta in Hy.
  destruct (civil_from_days (t / MS_PER_DAY)) as [[year month] day].
  simpl in Hy. rewrite isDateKey_isoYear.
  rewrite andb_true_iff, Z.leb_le, Z.leb_le.
  destruct Hy as [-> ->]. unfold MS_PER_DAY.
  split; intros [? ?]; split; Z.div_mod_to_equations; lia.
Qed.

(** ** More on arrays *)

Lemma array_set_lookup_ne {A} (arr : list (option A)) i j v :
  j <> i -> (j < length arr)%nat -> array_set arr i v !! j = arr !! j.
Proof.
  intros Hne Hlt. unfold array_set.
  destruct (decide (i < length arr)%nat).
  - by apply list_lookup_insert_ne.
  - by apply lookup_app_l.
Qed.

Lemma array_set_total_length {A} (arr : list (option A)) i v :
  length (array_set arr i v) = Nat.max (length arr) (S i).
Proof.
  unfold array_set. destruct (decide (i < length arr)%nat).
  - rewrite length_insert. lia.
  - rewrite !length_app, length_replicate. simpl. lia.
Qed.

Lemma elem_of_array_set {A} (arr : list (option A)) i v w :
  Some w ∈ array_set arr i v -> w = v \/ Some w ∈ arr.
Proof.
  unfold array_set. destruct (decide (i < length arr)%nat) as [Hlt|Hge].
  - intros Hin. apply list_elem_of_lookup in Hin as [j Hj].
    destruct (decide (j = i)) as [->|Hne].
    + rewrite list_lookup_insert_eq in Hj by done. left. congruence.
    + rewrite list_lookup_insert_ne in Hj by done. right.
      by apply list_elem_of_lookup_2 in Hj.
  - rewrite !elem_of_app. intros [Hin|[Hin|Hin]].
    + by right.
    + by apply elem_of_replicate in Hin as [? _].
    + apply list_elem_of_singleton in Hin. left. congruence.
Qed.

Lemma array_set_slot {A} (arr : list (option A)) i j v w :
  array_set arr i v !! j = Some (Some w) ->
  (j = i /\ w = v) \/ (j <> i /\ arr !! j = Some (Some w)).
Proof.
  intros Hj. destruct (decide (j = i)) as [->|Hne].
  - rewrite array_set_lookup in Hj. left. split; congruence.
  - right. split; [done|]. unfold array_set in Hj.
    destruct (decide (i < length arr)%nat) as [Hlt|Hge].
    + by rewrite list_lookup_insert_ne in Hj.
    + destruct (decide (j < length arr)%nat).
      * by rewrite lookup_app_l in Hj.
      * rewrite lookup_app_r in Hj by lia.
        destruct (decide (j - length arr < i - length arr)%nat).
        -- rewrite lookup_app_l in Hj by (rewrite length_replicate; lia).
           apply lookup_replicate in Hj as [? _]. done.
        -- rewrite lookup_app_r in Hj by (rewrite length_replicate; lia).
           rewrite length_replicate in Hj.
           destruct (j - length arr - (i - length arr))%nat eqn:Hd; [lia|].
           done.
Qed.

(** ** More on the historical update *)

Section MoreUpdateFacts.
Context `{DateParser}.

Lemma loadDaily_cases (dir : gmap string File) f hours :
  loadDaily dir f = Some hours ->
  dir !! f = Some (DailyFile hours)
  \/ ((dir !! f = None \/ dir !! f = Some Unparseable)
      /\ hours = replicate 24 None).
Proof.
  unfold loadDaily. destruct (dir !! f) as [[]|]; intros [= <-]; auto.
Qed.

Lemma updateHistoricalData_steps results now history dir' :
  updateHistoricalData results now history = Some dir' ->
  let reading := newReading results now in
  let dateString := toISODate (hr_timestamp reading) in
  let hour := getUTCHours (hr_timestamp reading) in
  exists hours,
    loadDaily (default ∅ history) dateString = Some hours
    /\ dir' = updateHistoricalRange "index" now
                (generateRecentFile now
                   (<[dateString := DailyFile (array_set hours hour reading)]>
                      (default ∅ history))).
Proof.
  unfold updateHistoricalData. intros Hu.
  apply bind_Some in Hu as (hours & Hload & Hu). inversion Hu; subst; clear Hu.
  by exists hours.
Qed.

(** X13: an update that returns changes no file other than the daily file
    of the reading's date, [recent] and [index].  In the daily file the
    slot of the reading's hour holds the reading and the other slots are
    as before, a shorter array being padded; an absent or unparseable file
    is replaced by 24 slots, empty but for the new reading. *)
Theorem updateHistoricalData_frame results now history dir' :
  updateHistoricalData results now history = Some dir' ->
  let reading := newReading results now in
  let dateString := toISODate (hr_timestamp reading) in
  let hour := getUTCHours (hr_timestamp reading) in
  (forall k, k <> dateString -> k <> "recent" -> k <> "index" ->
             dir' !! k = default ∅ history !! k)
  /\ exists hours',
       dir' !! dateString = Some (DailyFile hours')
       /\ hours' !! hour = Some (Some reading)
       /\ (forall hours,
             default ∅ history !! dateString = Some (DailyFile hours) ->
             length hours' = Nat.max (length hours) (S hour)
             /\ forall i, i <> hour -> (i < length hours)%nat ->
                          hours' !! i = hours !! i)
       /\ (default ∅ history !! dateString = None
           \/ default ∅ history !! dateString = Some Unparseable ->
           hours' = <[hour := Some reading]> (replicate 24 None)).
Proof.
  intros Hu reading dateString hour.
  destruct (updateHistoricalData_steps _ _ _ _ Hu) as (hours & Hload & ->).
  fold reading dateString hour in Hload |- *.
  destruct (toISODate_not_artifact (hr_timestamp reading)) as [Hr Hi].
  fold dateString in Hr, Hi.
  split.
  - intros k Hk1 Hk2 Hk3.
    rewrite updateHistoricalRange_lookup, generateRecentFile_lookup by done.
    by rewrite lookup_insert_ne.
  - exists (array_set hours hour reading).
    rewrite updateHistoricalRange_lookup, generateRecentFile_lookup by done.
    rewrite lookup_insert_eq. split; [done|].
    split; [apply array_set_lookup|].
    apply loadDaily_cases in Hload as [Hd|[Hd ->]].
    + split.
      * intros hours0 Hd0. rewrite Hd in Hd0. injection Hd0 as <-.
        split; [apply array_set_total_length|].
        intros i Hi1 Hi2. by apply array_set_lookup_ne.
      * intros [Hn|Hn]; congruence.
    + split.
      * intros hours0 Hd0. destruct Hd; congruence.
      * intros _. apply array_set_in_range. rewrite length_replicate.
        apply getUTCHours_lt.
Qed.

Lemma recentReadings_readable now (dir : gmap string File) :
  (forall f, is_Some (dir !! f) -> inWindow now f ->
             exists hours, dir !! f = Some (DailyFile hours)) ->
  recentReadings now dir
  = Some (sortByTimestamp (flat_map (bucketReadings dir) (recentFiles now dir))).
Proof.
  intros Hok. unfold recentReadings.
  rewrite collectReadings_Some; [done|].
  intros f Hf. apply elem_of_recentFiles in Hf as [Hin Hw].
  destruct (Hok f Hin Hw) as [hours Hh]. exists hours. by apply readHours_Some.
Qed.

Lemma recentReadings_unreadable now (dir : gmap string File) f :
  is_Some (dir !! f) -> inWindow now f ->
  (forall hours, dir !! f <> Some (DailyFile hours)) ->
  recentReadings now dir = None.
Proof.
  intros Hin Hw Hbad. unfold recentReadings.
  rewrite (collectReadings_None dir _ f); [done| |].
  - by apply elem_of_recentFiles.
  - destruct (readHours dir f) as [hours|] eqn:Hr; [|done].
    apply readHours_Some in Hr. by destruct (Hbad hours).
Qed.

(** X14: after an update whose date lies in the 7-day window, when the
    other files in the window are readable, the recent rollup holds the
    new reading, is sorted by time, and holds besides it only readings of
    the buckets in the window. *)
Theorem updateHistoricalData_recent results now history dir' :
  updateHistoricalData results now history = Some dir' ->
  let reading := newReading results now in
  let dateString := toISODate (hr_timestamp reading) in
  inWindow now dateString ->
  (forall f, f <> dateString -> is_Some (default ∅ history !! f) ->
             inWindow now f ->
             exists hours, default ∅ history !! f = Some (DailyFile hours)) ->
  exists readings,
    dir' !! "recent" = Some (RecentFile readings)
    /\ reading ∈ readings
    /\ StronglySorted (fun a b => hr_timestamp a <= hr_timestamp b) readings
    /\ (forall r, r ∈ readings ->
          r = reading
          \/ exists f hours,
               default ∅ history !! f = Some (DailyFile hours)
               /\ inWindow now f /\ Some r ∈ hours).
Proof.
  intros Hu reading dateString Hwin Hok.
  destruct (updateHistoricalData_steps _ _ _ _ Hu) as (hours & Hload & ->).
  fold reading dateString in Hload |- *.
  set (hour := getUTCHours (hr_timestamp reading)).
  set (dir := default ∅ history) in *.
  set (dir1 := <[dateString := DailyFile (array_set hours hour reading)]> dir).
  assert (Hread : recentReadings now dir1
    = Some (sortByTimestamp
              (flat_map (bucketReadings dir1) (recentFiles now dir1)))).
  { apply recentReadings_readable. intros f Hin Hw. unfold dir1 in *.
    destruct (decide (f = dateString)) as [->|Hne].
    - rewrite lookup_insert_eq. by eexists.
    - rewrite lookup_insert_ne in Hin |- * by done. by apply Hok. }
  exists (sortByTimestamp
            (flat_map (bucketReadings dir1) (recentFiles now dir1))).
  split.
  { rewrite updateHistoricalRange_lookup by done.
    unfold generateRecentFile. rewrite Hread. apply lookup_insert_eq. }
  assert (Hmem : forall r,
    r ∈ sortByTimestamp (flat_map (bucketReadings dir1) (recentFiles now dir1))
    <-> exists f, (is_Some (dir1 !! f) /\ inWindow now f)
                  /\ exists hours, dir1 !! f = Some (DailyFile hours)
                                   /\ Some r ∈ hours).
  { intros r. rewrite sortByTimestamp_perm, list_elem_of_In, in_flat_map.
    split; intros (f & Hf & Hr); exists f.
    - apply list_elem_of_In, elem_of_recentFiles in Hf.
      by apply list_elem_of_In, elem_of_bucketReadings in Hr.
    - split; [by apply list_elem_of_In, elem_of_recentFiles|].
      by apply list_elem_of_In, elem_of_bucketReadings. }
  split; [|split; [apply sortByTimestamp_sorted|]].
  - apply Hmem. exists dateString. unfold dir1. rewrite lookup_insert_eq.
    split; [by split|]. eexists. split; [done|].
    eapply list_elem_of_lookup_2, array_set_lookup.
  - intros r Hr. apply Hmem in Hr as (f & [Hin Hw] & hs & Hf & Hs).
    unfold dir1 in Hf. destruct (decide (f = dateString)) as [->|Hne].
    + rewrite lookup_insert_eq in Hf. injection Hf as <-.
      apply elem_of_array_set in Hs as [->|Hs]; [by left|]. right.
      apply loadDaily_cases in Hload as [Hd|[_ ->]].
      * by exists dateString, hours.
      * by apply elem_of_replicate in Hs as [? _].
    + rewrite lookup_insert_ne in Hf by done. right. by exists f, hs.
Qed.

(** X15: when another file in the window is unreadable the update still
    stores the reading in its slot, and the recent rollup keeps its
    previous content. *)
Theorem updateHistoricalData_corrupt_neighbour results now history dir' f :
  updateHistoricalData results now history = Some dir' ->
  let reading := newReading results now in
  let dateString := toISODate (hr_timestamp reading) in
  let hour := getUTCHours (hr_timestamp reading) in
  f <> dateString ->
  is_Some (default ∅ history !! f) ->
  inWindow now f ->
  (forall hours, default ∅ history !! f <> Some (DailyFile hours)) ->
  dir' !! "recent" = default ∅ history !! "recent"
  /\ exists hours',
       dir' !! dateString = Some (DailyFile hours')
       /\ hours' !! hour = Some (Some reading).
Proof.
  intros Hu reading dateString hour Hne Hin Hw Hbad.
  destruct (updateHistoricalData_steps _ _ _ _ Hu) as (hours & Hload & ->).
  fold reading dateString hour in Hload |- *.
  destruct (toISODate_not_artifact (hr_timestamp reading)) as [Hr Hi].
  fold dateString in Hr, Hi.
  set (dir1 := <[dateString := DailyFile (array_set hours hour reading)]>
                 (default ∅ history)).
  assert (Hnone : recentReadings now dir1 = None).
  { apply (recentReadings_unreadable now dir1 f); unfold dir1;
      rewrite ?lookup_insert_ne by done; done. }
  assert (Hgen : generateRecentFile now dir1 = dir1).
  { unfold generateRecentFile. by rewrite Hnone. }
  rewrite Hgen. split.
  - rewrite updateHistoricalRange_lookup by done.
    unfold dir1. by rewrite lookup_insert_ne.
  - exists (array_set hours hour reading).
    rewrite updateHistoricalRange_lookup by done.
    unfold dir1. rewrite lookup_insert_eq. split; [done|].
    apply array_set_lookup.
Qed.
End MoreUpdateFacts.

Lemma readdir_insert_perm (dir : gmap string File) k content :
  readdir (<[k := content]> dir)
  ≡ₚ if decide (is_Some (dir !! k)) then readdir dir else k :: readdir dir.
Proof.
  apply NoDup_Permutation; [apply NoDup_readdir| |].
  - destruct (decide _) as [Hin|Hnin]; [apply NoDup_readdir|].
    apply NoDup_cons. split; [|apply NoDup_readdir].
    by rewrite elem_of_readdir.
  - intros f. rewrite elem_of_readdir, lookup_insert_is_Some.
    destruct (decide (is_Some (dir !! k))) as [Hin|Hnin].
    + rewrite elem_of_readdir. split; [intros [<-|[_ ?]]; done|].
      intros Hf. destruct (decide (k = f)); [by left|by right].
    + rewrite elem_of_cons, elem_of_readdir.
      split; [intros [<-|[_ ?]]; auto|].
      intros [->|Hf]; [by left|]. right. split; [|done]. by intros ->.
Qed.

Section IndexFacts.
Context `{DateParser}.

Lemma dateFiles_generateRecentFile now (dir : gmap string File) :
  dateFiles (generateRecentFile now dir) = dateFiles dir.
Proof.
  unfold generateRecentFile. destruct (recentReadings now dir); [|done].
  by apply dateFiles_insert_artifact.
Qed.

(** X16: after an update whose date is a date key, the index spans that
    date and all date-named files that were there, and counts one day more
    than before when the daily file is new. *)
Theorem updateHistoricalData_index results now history dir' :
  updateHistoricalData results now history = Some dir' ->
  let dateString := toISODate (hr_timestamp (newReading results now)) in
  isDateKey dateString = true ->
  exists startDate endDate totalDays,
    dir' !! "index" = Some (RangeFile startDate endDate totalDays now)
    /\ String.le startDate dateString /\ String.le dateString endDate
    /\ (forall f, is_Some (default ∅ history !! f) -> isDateKey f = true ->
                  String.le startDate f /\ String.le f endDate)
    /\ totalDays
       = (length (filter (fun f => isDateKey f)
                    (readdir (default ∅ history)))
          + (if decide (is_Some (default ∅ history !! dateString))
             then 0 else 1))%nat.
Proof.
  intros Hu dateString Hkey.
  destruct (updateHistoricalData_steps _ _ _ _ Hu) as (hours & Hload & ->).
  fold dateString in Hload |- *.
  set (reading := newReading results now).
  set (hour := getUTCHours (hr_timestamp reading)).
  set (dir := default ∅ history) in *.
  set (dir1 := <[dateString := DailyFile (array_set hours hour reading)]> dir).
  set (dir2 := generateRecentFile now dir1).
  assert (Hlook : forall f, isDateKey f = true -> dir2 !! f = dir1 !! f).
  { intros f Hf. apply generateRecentFile_lookup. by intros ->. }
  assert (Hin2 : is_Some (dir2 !! dateString)).
  { rewrite Hlook by done. unfold dir1. rewrite lookup_insert_eq. by eexists. }
  destruct (updateHistoricalRange_some "index" now dir2 dateString Hin2 Hkey)
    as (s & e & -> & _ & _ & Hb).
  exists s, e, (length (filter (fun f => isDateKey f) (readdir dir2))).
  rewrite lookup_insert_eq. split; [done|].
  split; [by apply Hb|]. split; [by apply Hb|]. split.
  - intros f Hf Hk. apply Hb; [|done]. rewrite Hlook by done.
    unfold dir1. rewrite lookup_insert_is_Some.
    destruct (decide (dateString = f)); [by left|by right].
  - rewrite <- !dateFiles_length. unfold dir2.
    rewrite dateFiles_generateRecentFile, !dateFiles_length.
    unfold dir1. rewrite readdir_insert_perm.
    destruct (decide (is_Some (dir !! dateString))); [lia|].
    rewrite filter_cons_True by by apply Is_true_true. simpl. lia.
Qed.

(** X17: if every daily bucket has 24 slots and every reading sits in the
    file of its UTC date at the slot of its UTC hour, the same holds after
    an update. *)
Theorem updateHistoricalData_wellPlaced results now history dir' :
  wellPlaced (default ∅ history) ->
  updateHistoricalData results now history = Some dir' ->
  wellPlaced dir'.
Proof.
  intros Hwp Hu.
  destruct (updateHistoricalData_steps _ _ _ _ Hu) as (hours & Hload & ->).
  set (reading := newReading results now) in *.
  set (dateString := toISODate (hr_timestamp reading)) in *.
  set (hour := getUTCHours (hr_timestamp reading)) in *.
  set (dir := default ∅ history) in *.
  intros f hs Hf.
  assert (Hf1 : <[dateString := DailyFile (array_set hours hour reading)]> dir
                !! f = Some (DailyFile hs)).
  { rewrite updateHistoricalRange_dateFiles in Hf.
    destruct (dateFiles _) as [|s l].
    - unfold generateRecentFile in Hf. destruct (recentReadings _ _).
      + destruct (decide (f = "recent")) as [->|Hne].
        * by rewrite lookup_insert_eq in Hf.
        * by rewrite lookup_insert_ne in Hf.
      + done.
    - destruct (decide (f = "index")) as [->|Hne].
      + by rewrite lookup_insert_eq in Hf.
      + rewrite lookup_insert_ne in Hf by done.
        unfold generateRecentFile in Hf. destruct (recentReadings _ _).
        * destruct (decide (f = "recent")) as [->|Hne'].
          -- by rewrite lookup_insert_eq in Hf.
          -- by rewrite lookup_insert_ne in Hf.
        * done. }
  clear Hf. destruct (decide (f = dateString)) as [->|Hne].
  - rewrite lookup_insert_eq in Hf1. injection Hf1 as <-.
    pose proof (getUTCHours_lt (hr_timestamp reading)) as Hlt. fold hour in Hlt.
    apply loadDaily_cases in Hload as [Hd|[_ ->]].
    + destruct (Hwp _ _ Hd) as [Hlen Hslots]. split.
      * rewrite array_set_total_length. lia.
      * intros h r Hh. apply array_set_slot in Hh as [[-> ->]|[_ Hh]]; [done|].
        by apply Hslots.
    + split.
      * rewrite array_set_total_length, length_replicate. lia.
      * intros h r Hh. apply array_set_slot in Hh as [[-> ->]|[_ Hh]]; [done|].
        by apply lookup_replicate in Hh as [? _].
  - rewrite lookup_insert_ne in Hf1 by done. by apply Hwp.
Qed.
End IndexFacts.

(** ** More on the clean-up job *)

Section MoreCleanupFacts.
Context `{DateParser}.

Lemma cleanup_dir now (dir : gmap string File) :
  let cutoffTime := now - TWO_YEARS_MS in
  exists cl : gmap string File,
    (forall f, cl !! f = if decide (expired cutoffTime f) then None
                         else dir !! f)
    /\ (cleanup now (Some dir)).1
       = Some (if (0 <? length (filter (expired cutoffTime) (readdir dir)))%nat
                  || (0 <? length (filter (retained cutoffTime)
                                     (readdir dir)))%nat
               then updateHistoricalRange "range" now cl else cl).
Proof.
  intros cutoffTime. unfold cleanup. fold cutoffTime.
  destruct (cleanup_fold cutoffTime (readdir dir) (mkCleanup dir [] 0))
    as (Hdel & Hkept & Hdir).
  simpl in Hdel, Hkept, Hdir.
  set (st := foldl (cleanupStep cutoffTime) (mkCleanup dir [] 0) (readdir dir))
    in *.
  exists (cl_dir st). split.
  - intros f. rewrite Hdir.
    destruct (decide (expired cutoffTime f)) as [He|Hne].
    + destruct (decide (f ∈ readdir dir /\ expired cutoffTime f)) as [_|Hn];
        [done|].
      destruct (dir !! f) eqn:Hf; [|done].
      destruct Hn. split; [|done]. apply elem_of_readdir. by eexists.
    + rewrite decide_False; [done|]. by intros [_ ?].
  - rewrite Hdel, Hkept. simpl. by destruct (_ || _).
Qed.



Lemma retained_files_perm cutoffTime (dir cl : gmap string File) :
  (forall f, cl !! f = if decide (expired cutoffTime f) then None
                       else dir !! f) ->
  filter (fun f => isDateKey f) (readdir cl)
  ≡ₚ filter (retained cutoffTime) (readdir dir).
Proof.
  intros Hcl. apply NoDup_Permutation; try apply NoDup_filter, NoDup_readdir.
  intros f. rewrite !list_elem_of_filter, !elem_of_readdir, Hcl, Is_true_true.
  unfold retained. destruct (decide (expired cutoffTime f)) as [He|Hne].
  - split; [by intros [_ [? ?]]|]. by intros [[_ ?] _].
  - tauto.
Qed.

(** X19: after the clean-up the range artifact counts the retained
    date-named files and spans them; when none is retained the artifact
    is left as it was, also when the files it describes are deleted. *)
Theorem cleanup_range now (dir dir1 : gmap string File) :
  (cleanup now (Some dir)).1 = Some dir1 ->
  let cutoffTime := now - TWO_YEARS_MS in
  ((forall f, is_Some (dir !! f) -> ~ retained cutoffTime f) ->
   dir1 !! "range" = dir !! "range")
  /\ (forall f0, is_Some (dir !! f0) -> retained cutoffTime f0 ->
      exists startDate endDate,
        dir1 !! "range"
        = Some (RangeFile startDate endDate
                  (length (filter (retained cutoffTime) (readdir dir))) now)
        /\ (is_Some (dir1 !! startDate) /\ retained cutoffTime startDate)
        /\ (is_Some (dir1 !! endDate) /\ retained cutoffTime endDate)
        /\ (forall f, is_Some (dir1 !! f) -> isDateKey f = true ->
                      String.le startDate f /\ String.le f endDate)).
Proof.
  intros Hc cutoffTime.
  destruct (cleanup_dir now dir) as (cl & Hcl & Hc'). fold cutoffTime in Hcl, Hc'.
  rewrite Hc in Hc'. injection Hc' as ->.
  pose proof (retained_files_perm cutoffTime dir cl Hcl) as Hperm.
  assert (Hrange : cl !! "range" = dir !! "range").
  { rewrite Hcl. rewrite decide_False; [done|]. by intros [? _]. }
  split.
  - intros Hno.
    assert (Hnone : forall f, is_Some (cl !! f) -> isDateKey f = false).
    { intros f Hf. rewrite Hcl in Hf.
      destruct (decide (expired cutoffTime f)) as [|Hne];
        [by destruct Hf|].
      destruct (isDateKey f) eqn:Hk; [|done].
      by destruct (Hno f Hf). }
    rewrite updateHistoricalRange_none by done.
    by destruct (_ || _).
  - intros f0 Hin0 Hret0.
    assert (Hkept : (0 <? length (filter (retained cutoffTime) (readdir dir)))%nat
                    = true).
    { apply Nat.ltb_lt.
      assert (Hf0 : f0 ∈ filter (retained cutoffTime) (readdir dir)).
      { apply list_elem_of_filter. split; [done|by apply elem_of_readdir]. }
      destruct (filter (retained cutoffTime) (readdir dir)) as [|a l];
        [by apply elem_of_nil in Hf0|].
      cbn [length]. lia. }
    rewrite Hkept, orb_true_r.
    assert (Hcl0 : is_Some (cl !! f0)).
    { rewrite Hcl. rewrite decide_False; [done|]. by destruct Hret0. }
    destruct (updateHistoricalRange_some "range" now cl f0 Hcl0
                ltac:(by destruct Hret0)) as (s & e & -> & Hs & He & Hb).
    assert (Hret : forall f, is_Some (cl !! f) -> isDateKey f = true ->
                             retained cutoffTime f).
    { intros f Hf Hk. split; [done|]. intros Hex. rewrite Hcl in Hf.
      rewrite decide_True in Hf by done. by destruct Hf. }
    assert (Hkeep : forall f n, isDateKey f = true ->
      <["range" := RangeFile s e n now]> cl !! f = cl !! f).
    { intros f n Hk. apply lookup_insert_ne. by intros <-. }
    exists s, e. rewrite lookup_insert_eq, Hperm. split; [done|].
    split; [|split].
    + destruct Hs as [Hs Hk]. rewrite Hkeep by done. split; [done|by apply Hret].
    + destruct He as [He Hk]. rewrite Hkeep by done. split; [done|by apply Hret].
    + intros f Hf Hk. rewrite Hkeep in Hf by done. by apply Hb.
Qed.
End MoreCleanupFacts.

(** ** File names *)

Lemma append_length (s1 s2 : string) :
  String.length (s1 +:+ s2) = (String.length s1 + String.length s2)%nat.
Proof. induction s1 as [|c s1 IH]; simpl; [done|]. by rewrite IH. Qed.

Lemma stripSuffix_eq (suffix s : string) :
  stripSuffix suffix s
  = if String.eqb s suffix then Some ""%string
    else match s with
         | EmptyString => None
         | String c s' => String c <$> stripSuffix suffix s'
         end.
Proof. by destruct s. Qed.

Lemma append_nil_inv (p suffix : string) : suffix = p +:+ suffix -> p = ""%string.
Proof.
  intros Hp. apply (f_equal String.length) in Hp. rewrite append_length in Hp.
  destruct p; [done|]. simpl in Hp. lia.
Qed.

Lemma append_inj_r (p1 p2 suffix : string) :
  p1 +:+ suffix = p2 +:+ suffix -> p1 = p2.
Proof.
  revert p2. induction p1 as [|c p1 IH]; intros p2 Hp.
  - symmetry. by apply (append_nil_inv p2 suffix).
  - destruct p2 as [|c' p2].
    + by apply (append_nil_inv (String c p1) suffix).
    + injection Hp as <- Hp. f_equal. by apply IH.
Qed.

Lemma stripSuffix_Some (suffix s p : string) :
  stripSuffix suffix s = Some p <-> s = p +:+ suffix.
Proof.
  revert p. induction s as [|c s IH]; intros p; rewrite stripSuffix_eq.
  - destruct (String.eqb_spec "" suffix) as [<-|Hne].
    + split; [by intros [= <-]|]. by destruct p.
    + split; [done|]. intros Hp. destruct p; [|done]. by destruct Hne.
  - destruct (String.eqb_spec (String c s) suffix) as [<-|Hne].
    + split; [by intros [= <-]|]. intros Hp.
      apply append_nil_inv in Hp. by rewrite Hp.
    + destruct (stripSuffix suffix s) as [p'|].
      * assert (Hs : s = p' +:+ suffix) by by apply IH.
        split.
        { simpl. intros Hp. injection Hp as <-. rewrite Hs. reflexivity. }
        destruct p as [|c' p]; [intros Hp; by destruct Hne|].
        intros [= <- Hp]. rewrite Hs in Hp.
        apply append_inj_r in Hp. by rewrite Hp.
      * split; [done|]. destruct p as [|c' p]; [intros Hp; by destruct Hne|].
        intros [= <- Hp]. assert (Hi : None = Some p) by by apply IH.
        done.
Qed.

Lemma endsWith_spec (s suffix : string) :
  endsWith s suffix = true <-> exists p, s = p +:+ suffix.
Proof.
  unfold endsWith. destruct (stripSuffix suffix s) as [p|] eqn:Hs.
  - apply stripSuffix_Some in Hs. split; [by exists p|done].
  - split; [done|]. intros [p Hp]. apply stripSuffix_Some in Hp. congruence.
Qed.

(** X20: the location files are the entries that end in [.json], the test
    against [.gitkeep] excluding nothing more; the location name of such a
    file is the name without that ending, so that the configuration read
    is that file. *)
Theorem locationFiles_names (files : list string) :
  locationFiles files = filter (fun f => endsWith f ".json") files
  /\ (forall f, f ∈ locationFiles files ->
        f = basename f ".json" +:+ ".json"
        /\ forall name, f = name +:+ ".json" -> basename f ".json" = name).
Proof.
  split.
  - unfold locationFiles. apply list_filter_iff. intros f.
    destruct (endsWith f ".json") eqn:He; [|done].
    destruct (String.eqb_spec f ".gitkeep") as [->|]; done.
  - intros f Hf. unfold locationFiles in Hf.
    apply list_elem_of_filter in Hf as [Hf _].
    apply andb_prop_elim in Hf as [Hf _]. apply Is_true_true in Hf.
    apply endsWith_spec in Hf as [p Hp].
    assert (Hb : basename f ".json" = p).
    { unfold basename. simpl.
      apply stripSuffix_Some in Hp. by rewrite Hp. }
    split; [by rewrite Hb|].
    intros name Hn. rewrite Hb. rewrite Hp in Hn.
    by apply append_inj_r in Hn.
Qed.

(** ** Writing the region files *)

Lemma Map_get_app_l {K V} `{EqDecision K} (m1 m2 : list (K * V)) k :
  k ∈ m1.*1 -> Map_get (m1 ++ m2) k = Map_get m1 k.
Proof.
  induction m1 as [|[k' v'] m1 IH]; intros Hk; [by apply elem_of_nil in Hk|].
  simpl in *. destruct (decide (k' = k)); [done|].
  apply IH. apply elem_of_cons in Hk as [Hk|Hk]; [congruence|done].
Qed.

Lemma writeRegions_defined (entries : list (option string * RegionStatus)) :
  forall dir : gmap string ApiFile,
  NoDup entries.*1 ->
  (forall key, key ∈ entries.*1 ->
               exists name, key = Some name /\ plainName name = true) ->
  exists dir',
    writeRegions entries dir = (dir', true)
    /\ forall k, dir' !! k = match Map_get entries (Some k) with
                             | Some status => Some (StatusFile status)
                             | None => dir !! k
                             end.
Proof.
  induction entries as [|[[region|] status] entries IH]; intros dir Hnd Hplain.
  - by exists dir.
  - simpl in *. apply NoDup_cons in Hnd as [Hfresh Hnd].
    destruct (Hplain (Some region)) as (name & [= <-] & Hname); [by left|].
    rewrite Hname.
    destruct (IH (<[region := StatusFile status]> dir) Hnd) as (dir' & -> & Hlook).
    { intros key Hkey. apply Hplain. by right. }
    exists dir'. split; [done|]. intros k. rewrite Hlook.
    destruct (decide (Some region = Some k)) as [[= ->]|Hne].
    + apply Map_get_None in Hfresh. rewrite Hfresh.
      by rewrite lookup_insert_eq.
    + destruct (Map_get entries (Some k)); [done|].
      rewrite lookup_insert_ne; [done|]. congruence.
  - destruct (Hplain None) as (name & [=] & _). by left.
Qed.

Lemma writeRegions_undefined (pre post : list (option string * RegionStatus))
    status :
  forall dir : gmap string ApiFile,
  (forall key, key ∈ pre.*1 ->
               exists name, key = Some name /\ plainName name = true) ->
  writeRegions (pre ++ (None, status) :: post) dir
  = ((writeRegions pre dir).1, false).
Proof.
  induction pre as [|[[region|] status'] pre IH]; intros dir Hplain.
  - done.
  - simpl in *.
    destruct (Hplain (Some region)) as (name & [= <-] & Hname); [by left|].
    rewrite Hname. apply IH. intros key Hkey. apply Hplain. by right.
  - destruct (Hplain None) as (name & [=] & _). by left.
Qed.

Lemma regionMap_NoDup (results : list VisibilityResult) :
  NoDup (regionMap results).*1.
Proof. apply regionMap_fold_NoDup. constructor. Qed.

Lemma regionMap_get (results : list VisibilityResult) key :
  Map_get (regionMap results) key = last (filter (inRegion key) results).
Proof.
  unfold regionMap. rewrite regionMap_fold. simpl.
  by destruct (last (filter (inRegion key) results)).
Qed.

Lemma regionMap_entry_key (results : list VisibilityResult) key r :
  (key, r) ∈ regionMap results -> region r = key.
Proof.
  intros Hin. apply Map_get_Some in Hin; [|apply regionMap_NoDup].
  rewrite regionMap_get in Hin. by apply last_filter_Some in Hin as [_ Hr].
Qed.

Lemma regionEndpoints_statusOf (results : list VisibilityResult) :
  regionEndpoints results
  = (fun entry => (entry.1, statusOf entry.2)) <$> regionMap results.
Proof.
  unfold regionEndpoints.
  change (map ?f ?l) with (f <$> l).
  apply list_fmap_ext. intros i [key r] Hi.
  apply list_elem_of_lookup_2, regionMap_entry_key in Hi.
  simpl. unfold statusOf. by rewrite Hi.
Qed.

Lemma regionEndpoints_keys (results : list VisibilityResult) :
  (regionEndpoints results).*1 = (regionMap results).*1.
Proof.
  rewrite regionEndpoints_statusOf, <- list_fmap_compose.
  by apply list_fmap_ext.
Qed.

Lemma Map_get_fmap {K V W} `{EqDecision K} (g : V -> W) (m : list (K * V)) k :
  Map_get ((fun entry => (entry.1, g entry.2)) <$> m) k = g <$> Map_get m k.
Proof.
  induction m as [|[k' v] m IH]; [done|]. simpl.
  by destruct (decide (k' = k)).
Qed.

Lemma regionEndpoints_get (results : list VisibilityResult) key :
  Map_get (regionEndpoints results) key
  = statusOf <$> last (filter (inRegion key) results).
Proof. by rewrite regionEndpoints_statusOf, Map_get_fmap, regionMap_get. Qed.

Lemma regionMap_key_elem (results : list VisibilityResult) key :
  key ∈ (regionMap results).*1 <-> key ∈ region <$> results.
Proof.
  rewrite regionMap_keys, elem_of_reverse, elem_of_remove_dups.
  apply elem_of_reverse.
Qed.

Lemma foldl_Map_set_prefix (results : list VisibilityResult) :
  forall m : list (option string * VisibilityResult),
  exists more,
    (foldl (fun m result => Map_set m (region result) result) m results).*1
    = m.*1 ++ more.
Proof.
  induction results as [|r results IH]; intros m.
  - exists []. by rewrite app_nil_r.
  - simpl. destruct (IH (Map_set m (region r) r)) as [more ->].
    rewrite Map_set_keys. destruct (decide _).
    + by exists more.
    + exists (region r :: more). by rewrite <- app_assoc.
Qed.

(** The keys of the region map when [r] is the first result without a
    region: the regions seen before it, then [undefined]. *)
Lemma regionMap_split (pre post : list VisibilityResult) r :
  region r = None -> None ∉ region <$> pre ->
  exists more,
    (regionMap (pre ++ r :: post)).*1 = (regionMap pre).*1 ++ None :: more.
Proof.
  intros Hr Hpre. unfold regionMap at 1. rewrite foldl_app. simpl.
  fold (regionMap pre).
  destruct (foldl_Map_set_prefix post (Map_set (regionMap pre) (region r) r))
    as [more ->].
  rewrite Map_set_keys, Hr. rewrite decide_False.
  - exists more. by rewrite <- app_assoc.
  - by rewrite regionMap_key_elem.
Qed.

Lemma plainRegion_keys (results : list VisibilityResult) :
  (forall r, r ∈ results -> plainRegion r = true) ->
  forall key, key ∈ region <$> results ->
              exists name, key = Some name /\ plainName name = true.
Proof.
  intros Hall key Hin. apply list_elem_of_fmap in Hin as (r & -> & Hin).
  specialize (Hall r Hin). unfold plainRegion in Hall.
  destruct (region r) as [name|]; [by exists name|done].
Qed.

Lemma publishRegions_ok_flag (collection : string)
    (results : list VisibilityResult) (dir : gmap string ApiFile) :
  (forall r, r ∈ results -> plainRegion r = true) ->
  exists dir', publishRegions collection results dir = (dir', true).
Proof.
  intros Hall. unfold publishRegions.
  destruct (writeRegions_defined (regionEndpoints results) dir)
    as (dir1 & -> & _).
  - rewrite regionEndpoints_keys. apply regionMap_NoDup.
  - intros key. rewrite regionEndpoints_keys, regionMap_key_elem.
    by apply plainRegion_keys.
  - simpl. by eexists.
Qed.

Lemma regionEndpoints_split (pre post : list VisibilityResult) r :
  region r = None ->
  (forall r', r' ∈ pre -> plainRegion r' = true) ->
  exists E1 status E2,
    regionEndpoints (pre ++ r :: post) = E1 ++ (None, status) :: E2
    /\ E1.*1 = (regionMap pre).*1
    /\ NoDup E1.*1
    /\ (forall key, key ∈ E1.*1 ->
                    exists name, key = Some name /\ plainName name = true).
Proof.
  intros Hr Hpre.
  assert (Hnone : None ∉ region <$> pre).
  { intros Hin. by destruct (plainRegion_keys pre Hpre None Hin) as (? & ? & _). }
  destruct (regionMap_split pre post r Hr Hnone) as [more Hkeys].
  rewrite <- regionEndpoints_keys in Hkeys.
  apply fmap_app_inv in Hkeys as (E1 & E2 & HE1 & HE2 & Hent).
  destruct E2 as [|[key status] E2]; [done|].
  simpl in HE2. injection HE2 as <- _.
  exists E1, status, E2. split; [done|]. split; [done|]. split.
  - rewrite <- HE1. apply regionMap_NoDup.
  - intros key. rewrite <- HE1, regionMap_key_elem.
    by apply plainRegion_keys.
Qed.

Lemma publishRegions_fail_flag (collection : string)
    (pre post : list VisibilityResult) r (dir : gmap string ApiFile) :
  region r = None ->
  (forall r', r' ∈ pre -> plainRegion r' = true) ->
  exists dir', publishRegions collection (pre ++ r :: post) dir = (dir', false).
Proof.
  intros Hr Hpre.
  destruct (regionEndpoints_split pre post r Hr Hpre)
    as (E1 & status & E2 & Hent & _ & _ & Hplain).
  unfold publishRegions. rewrite Hent.
  rewrite writeRegions_undefined by done. simpl. by eexists.
Qed.


(** X22: publishing ends by an exception at the first result without
    region: when the results before it have regions that are plain file
    names, the regions that first appear before it have their files
    written, with the record of their last result in the whole run, and
    nothing else is written, the collection neither. *)
Theorem publishRegions_undefined (collection : string)
    (pre post : list VisibilityResult) r (dir : gmap string ApiFile) :
  region r = None ->
  (forall r', r' ∈ pre -> plainRegion r' = true) ->
  exists dir',
    publishRegions collection (pre ++ r :: post) dir = (dir', false)
    /\ forall k,
         dir' !! k
         = if decide (Some k ∈ region <$> pre)
           then StatusFile ∘ statusOf
                  <$> last (filter (inRegion (Some k)) (pre ++ r :: post))
           else dir !! k.
Proof.
  intros Hr Hpre.
  destruct (regionEndpoints_split pre post r Hr Hpre)
    as (E1 & status & E2 & Hent & HE1 & HE1nd & HE1plain).
  unfold publishRegions. rewrite Hent.
  rewrite writeRegions_undefined by done.
  destruct (writeRegions_defined E1 dir HE1nd HE1plain) as (dir1 & Hw & Hlook).
  rewrite Hw. simpl. exists dir1. split; [done|].
  intros k. rewrite Hlook.
  destruct (decide (Some k ∈ region <$> pre)) as [Hin|Hnin].
  - assert (Hk : Some k ∈ E1.*1) by (by rewrite HE1, regionMap_key_elem).
    rewrite <- (Map_get_app_l E1 ((None, status) :: E2)) by done.
    rewrite <- Hent, regionEndpoints_get.
    destruct (last _) eqn:Hl; [done|].
    pose proof (proj1 (last_filter_None (inRegion (Some k))
                         (pre ++ r :: post)) Hl) as Hno.
    apply list_elem_of_fmap in Hin as (r' & Hr' & Hin).
    destruct (Hno r'); [|done]. apply elem_of_app. by left.
  - assert (Hk : Some k ∉ E1.*1) by (by rewrite HE1, regionMap_key_elem).
    apply Map_get_None in Hk. by rewrite Hk.
Qed.

(** ** The runs *)

Section OrchestratorFacts.
Context `{Collaborators} `{DateParser}.

Lemma collectResults_omap (files : list string) (clock : string -> Z) :
  forall results,
  collectResults files clock results
  = results
    ++ omap (fun f => analyzeFogLevel (basename f ".json") (clock f)) files.
Proof.
  induction files as [|f files IH]; intros results; simpl.
  - by rewrite app_nil_r.
  - destruct (analyzeFogLevel (basename f ".json") (clock f)) as [r|].
    + by rewrite IH, <- app_assoc.
    + apply IH.
Qed.

Lemma analyzeFogLevel_fields locationName now r :
  analyzeFogLevel locationName now = Some r ->
  region r = None /\ timestamp r = now.
Proof.
  unfold analyzeFogLevel. intros Ha.
  apply bind_Some in Ha as (config & _ & Ha).
  apply bind_Some in Ha as (buf & _ & Ha).
  apply bind_Some in Ha as (counted & _ & Ha).
  by injection Ha as <-.
Qed.

(** X23: the script that writes [current.json] leaves the file alone when
    no location is configured; otherwise it overwrites it with one entry
    for each location whose analysis returned, in the order of the
    listing, without prediction and stamped with the time of the
    analysis. *)
Theorem mainCurrent_statuses (files : list string) (clock : string -> Z)
    (current : option (list CurrentStatus)) :
  let results :=
    omap (fun f => option_map (pair f)
                     (analyzeFogLevel (basename f ".json") (clock f)))
         (locationFiles files) in
  (locationFiles files = [] -> mainCurrent files clock current = current)
  /\ (locationFiles files <> [] ->
      mainCurrent files clock current
      = Some ((fun entry : string * VisibilityResult =>
                 {| cs_location := location entry.2;
                    currentStatus :=
                      {| sn_fogLevel := fogLevel entry.2;
                         sn_visibilityScore := visibilityScore entry.2;
                         sn_timestamp := clock entry.1 |};
                    prediction := None |}) <$> results))
  /\ results.*1
     = filter (fun f => is_Some (analyzeFogLevel (basename f ".json")
                                   (clock f)))
         (locationFiles files).
Proof.
  intros results. split; [|split].
  - intros Hnil. unfold mainCurrent. by rewrite Hnil.
  - intros Hne. unfold mainCurrent.
    destruct (locationFiles files) as [|f0 l] eqn:Hl; [done|]. f_equal.
    rewrite collectResults_omap, app_nil_l. unfold currentStatuses, results.
    change (map ?f ?l) with (f <$> l).
    generalize (f0 :: l). intros fs. clear.
    induction fs as [|f fs IH]; [done|]. simpl.
    destruct (analyzeFogLevel (basename f ".json") (clock f)) as [r|] eqn:Ha;
      simpl; [|done].
    apply analyzeFogLevel_fields in Ha as [_ Ht]. rewrite <- Ht.
    f_equal. exact IH.
  - unfold results. generalize (locationFiles files). intros fs.
    induction fs as [|f fs IH]; [done|]. simpl.
    destruct (analyzeFogLevel (basename f ".json") (clock f)) as [r|] eqn:Ha;
      simpl.
    + rewrite filter_cons_True by (by rewrite Ha). f_equal. exact IH.
    + rewrite filter_cons_False; [exact IH|]. rewrite Ha. by intros [? ?].
Qed.

(** X24: when the regions that are defined are plain file names, writing
    the results of a run succeeds exactly when every result has a region
    and the daily file of the reading's date, if it parses, is a bucket.
    A result without region leaves the history as it was; when all
    regions are defined the region files are published, also if the
    historical update then throws. *)
Theorem writeResults_outcome (results : list VisibilityResult) (now : Z)
    (api : Api) :
  (forall r name, r ∈ results -> region r = Some name ->
                  plainName name = true) ->
  let out := writeResults results now api in
  let dateString := toISODate (hr_timestamp (newReading results now)) in
  (out.2 = true
   <-> (forall r, r ∈ results -> is_Some (region r))
       /\ forall content,
            default ∅ (historyDir api) !! dateString = Some content ->
            content = Unparseable \/ exists hours, content = DailyFile hours)
  /\ ((exists r, r ∈ results /\ region r = None) ->
      historyDir out.1 = historyDir api)
  /\ ((forall r, r ∈ results -> is_Some (region r)) ->
      regionsDir out.1 = (publishRegions "index" results (regionsDir api)).1
      /\ historyDir out.1
         = Some (default (default ∅ (historyDir api))
                   (updateHistoricalData results now (historyDir api)))).
Proof.
  intros Hplain out dateString.
  assert (Hload : is_Some (updateHistoricalData results now (historyDir api))
    <-> forall content,
          default ∅ (historyDir api) !! dateString = Some content ->
          content = Unparseable \/ exists hours, content = DailyFile hours).
  { unfold updateHistoricalData. fold dateString.
    unfold loadDaily.
    destruct (default ∅ (historyDir api) !! dateString) as [[]|]; simpl.
    - split; [|by eexists]. intros _ ? [= <-]. by left.
    - split; [|by eexists]. intros _ ? [= <-]. right. by eexists.
    - split; [by intros [? ?]|]. intros Hc.
      destruct (Hc _ eq_refl) as [?|[? ?]]; done.
    - split; [by intros [? ?]|]. intros Hc.
      destruct (Hc _ eq_refl) as [?|[? ?]]; done.
    - split; [|by eexists]. by intros _ ? [=]. }
  assert (Hdefined : forall rs : list VisibilityResult,
            (forall r, r ∈ rs -> r ∈ results) ->
            (forall r, r ∈ rs -> is_Some (region r)) ->
            forall r, r ∈ rs -> plainRegion r = true).
  { intros rs Hsub Hall r Hr. unfold plainRegion.
    destruct (Hall r Hr) as [name Hname]. rewrite Hname.
    by apply (Hplain r name); [apply Hsub|]. }
  assert (Hcases : (forall r, r ∈ results -> is_Some (region r))
                   \/ exists pre r post, results = pre ++ r :: post
                        /\ region r = None
                        /\ forall r', r' ∈ pre -> is_Some (region r')).
  { clear. induction results as [|r results IH].
    - left. intros r Hr. by apply elem_of_nil in Hr.
    - destruct (region r) as [k|] eqn:Hk.
      + destruct IH as [IH|(pre & r0 & post & -> & Hr0 & Hpre)].
        * left. intros r' Hr'. apply elem_of_cons in Hr' as [->|Hr'].
          -- by rewrite Hk.
          -- by apply IH.
        * right. exists (r :: pre), r0, post. split; [done|]. split; [done|].
          intros r' Hr'. apply elem_of_cons in Hr' as [->|Hr'].
          -- by rewrite Hk.
          -- by apply Hpre.
      + right. exists [], r, results. split; [done|]. split; [done|].
        intros r' Hr'. by apply elem_of_nil in Hr'. }
  unfold out, writeResults.
  destruct Hcases as [Hall|(pre & r & post & Heq & Hr & Hpre)].
  - destruct (publishRegions_ok_flag "index" results (regionsDir api))
      as [dir' Hp]; [by apply (Hdefined results)|].
    rewrite Hp. simpl.
    destruct (updateHistoricalData results now (historyDir api)) as [h|] eqn:Hu;
      simpl.
    + split; [|split; [|done]].
      * split; [|done]. intros _. split; [done|]. apply Hload. by eexists.
      * intros (r & Hin & Hr). apply Hall in Hin as [? ?]. congruence.
    + split; [|split; [|done]].
      * split; [done|]. intros [_ Hc]. apply Hload in Hc as [? ?]. done.
      * intros (r & Hin & Hr). apply Hall in Hin as [? ?]. congruence.
  - destruct (publishRegions_fail_flag "index" pre post r (regionsDir api) Hr)
      as [dir' Hp].
    { apply (Hdefined pre); [|done]. intros r' Hr'. rewrite Heq.
      apply elem_of_app. by left. }
    rewrite Heq at 1 2 3. rewrite Hp. simpl.
    assert (Hin : r ∈ results).
    { rewrite Heq. apply elem_of_app. right. by left. }
    split; [|split; [done|]].
    + split; [done|]. intros [Hall _].
      destruct (Hall r Hin) as [? ?]. congruence.
    + intros Hall. destruct (Hall r Hin) as [? ?]. congruence.
Qed.
End OrchestratorFacts.

Section AsWritten.
Context `{Collaborators} `{DateParser}.

Lemma publishRegions_first_undefined (collection : string)
    (r : VisibilityResult) (rest : list VisibilityResult)
    (dir : gmap string ApiFile) :
  region r = None -> publishRegions collection (r :: rest) dir = (dir, false).
Proof.
  intros Hr.
  destruct (regionMap_split [] rest r Hr) as [more Hkeys];
    [by intros ?%elem_of_nil|].
  rewrite <- regionEndpoints_keys in Hkeys. simpl in Hkeys.
  unfold publishRegions.
  destruct (regionEndpoints (r :: rest)) as [|[[k|] status] E2]; try done.
Qed.

Lemma collectResults_region (files : list string) (clock : string -> Z) r :
  r ∈ collectResults files clock [] -> region r = None.
Proof.
  rewrite collectResults_omap, app_nil_l, list_elem_of_omap.
  intros (f & _ & Ha). by apply analyzeFogLevel_fields in Ha as [? _].
Qed.

(** X25: [analyzeFogLevel] returns no region, so a run of either region
    script in which some location is analysed ends by an exception before
    any file is written.  With no location configured nothing is done;
    when every analysis fails, the empty collection is written and the
    history is updated. *)
Theorem checkFog_as_written (files : list string) (clock : string -> Z)
    (now : Z) (api : Api) :
  let results := collectResults (locationFiles files) clock [] in
  (locationFiles files = [] ->
   checkFog files clock now api = (api, true)
   /\ mainRegions files clock (regionsDir api) = (regionsDir api, true))
  /\ (results <> [] <->
      exists f, f ∈ locationFiles files
                /\ is_Some (analyzeFogLevel (basename f ".json") (clock f)))
  /\ (results <> [] ->
      checkFog files clock now api = (api, false)
      /\ mainRegions files clock (regionsDir api) = (regionsDir api, false))
  /\ (locationFiles files <> [] -> results = [] ->
      checkFog files clock now api = writeResults [] now api
      /\ regionsDir (checkFog files clock now api).1
         = <["index" := CollectionFile []]> (regionsDir api)
      /\ mainRegions files clock (regionsDir api)
         = (<["all" := CollectionFile []]> (regionsDir api), true)).
Proof.
  intros results. split; [|split; [|split]].
  - intros Hnil. unfold checkFog, mainRegions. by rewrite Hnil.
  - unfold results. rewrite collectResults_omap, app_nil_l. split.
    + intros Hne.
      destruct (omap _ _) as [|r l] eqn:Ho; [done|].
      assert (Hr : r ∈ omap (fun f => analyzeFogLevel (basename f ".json")
                                        (clock f)) (locationFiles files))
        by (rewrite Ho; by left).
      apply list_elem_of_omap in Hr as (f & Hf & Ha). exists f. by rewrite Ha.
    + intros (f & Hf & [r Ha]) Ho.
      assert (Hr : r ∈ omap (fun f => analyzeFogLevel (basename f ".json")
                                        (clock f)) (locationFiles files)).
      { apply list_elem_of_omap. by exists f. }
      rewrite Ho in Hr. by apply elem_of_nil in Hr.
  - intros Hne. unfold checkFog, mainRegions, writeResults. fold results.
    destruct (locationFiles files) as [|f0 l] eqn:Hl; [done|].
    fold results.
    assert (Hreg : forall r, r ∈ results -> region r = None).
    { intros r. apply collectResults_region. }
    destruct results as [|r rest]; [done|].
    rewrite !publishRegions_first_undefined by (apply Hreg; by left).
    simpl. by destruct api.
  - intros Hne Hnil. unfold checkFog, mainRegions. fold results.
    destruct (locationFiles files) as [|f0 l] eqn:Hl; [done|].
    fold results. rewrite Hnil. split; [done|].
    split; [|done]. unfold writeResults, publishRegions. simpl.
    by destruct (updateHistoricalData [] now (historyDir api)).
Qed.
End AsWritten.

(** ** The lines of the git log *)

Lemma split_nonempty (sep : ascii) (s : string) : split sep s <> [].
Proof.
  destruct s as [|c s]; simpl; [done|].
  destruct (Ascii.eqb c sep); [done|]. by destruct (split sep s).
Qed.

Lemma split_cons_ne (sep c : ascii) (s : string) :
  c <> sep ->
  split sep (String c s)
  = match split sep s with
    | first :: rest => String c first :: rest
    | [] => [String c EmptyString]
    end.
Proof. intros Hne. simpl. by rewrite (proj2 (Ascii.eqb_neq c sep) Hne). Qed.

Lemma split_field (sep : ascii) (field rest : string) :
  sep ∉ list_ascii_of_string field ->
  split sep (field +:+ String sep rest) = field :: split sep rest.
Proof.
  induction field as [|c field IH]; intros Hsep.
  - simpl. by rewrite Ascii.eqb_refl.
  - simpl in Hsep. apply not_elem_of_cons in Hsep as [Hne Hsep].
    change (String c field +:+ String sep rest)
      with (String c (field +:+ String sep rest)).
    rewrite split_cons_ne by done. by rewrite IH.
Qed.

Lemma concat_split (sep : ascii) (s : string) :
  String.concat (String sep EmptyString) (split sep s) = s.
Proof.
  induction s as [|c s IH]; [done|]. simpl split.
  destruct (Ascii.eqb_spec c sep) as [->|Hne].
  - pose proof (split_nonempty sep s) as Hn.
    destruct (split sep s) as [|first rest] eqn:Hs; [done|].
    change (String.concat (String sep "") ("" :: first :: rest))
      with (String sep (String.concat (String sep "") (first :: rest))).
    by rewrite IH.
  - pose proof (split_nonempty sep s) as Hn.
    destruct (split sep s) as [|first rest] eqn:Hs; [done|].
    destruct rest as [|second rest].
    + simpl in *. by rewrite IH.
    + change (String.concat (String sep "") (String c first :: second :: rest))
        with (String c (String.concat (String sep "") (first :: second :: rest))).
      by rewrite IH.
Qed.

(** X26: a line [hash|time|subject] of the log, whose hash and time hold
    no bar, is split into these three fields, whatever bars the subject
    holds. *)
Theorem parseCommitLine_fields (commitHash commitTime subject : string) :
  "|"%char ∉ list_ascii_of_string commitHash ->
  "|"%char ∉ list_ascii_of_string commitTime ->
  parseCommitLine (commitHash +:+ "|" +:+ commitTime +:+ "|" +:+ subject)
  = {| hash := commitHash; ci_timestamp := Some commitTime;
       message := subject |}.
Proof.
  intros Hh Ht. unfold parseCommitLine.
  change (commitHash +:+ "|" +:+ commitTime +:+ "|" +:+ subject)
    with (commitHash +:+ String "|" (commitTime +:+ String "|" subject)).
  rewrite !split_field by done. simpl head. simpl tail.
  by rewrite (concat_split "|" subject).
Qed.

(** ** The extracted history *)

Lemma Map_get_In {K V} `{EqDecision K} (m : list (K * V)) k v :
  Map_get m k = Some v -> (k, v) ∈ m.
Proof.
  induction m as [|[k' v'] m IH]; [done|]. simpl.
  destruct (decide (k' = k)) as [->|_].
  - intros [= ->]. by left.
  - intros Hg. right. by apply IH.
Qed.

Lemma Map_set_In {K V} `{EqDecision K} (m : list (K * V)) k v k' v' :
  (k', v') ∈ Map_set m k v -> (k' = k /\ v' = v) \/ (k', v') ∈ m.
Proof.
  induction m as [|[k0 v0] m IH]; simpl.
  - intros Hin. apply list_elem_of_singleton in Hin as [= -> ->]. by left.
  - destruct (decide (k0 = k)) as [->|_].
    + intros Hin. apply elem_of_cons in Hin as [[= -> ->]|Hin]; [by left|].
      right. by right.
    + intros Hin. apply elem_of_cons in Hin as [[= -> ->]|Hin].
      * right. by left.
      * destruct (IH Hin) as [?|?]; [by left|]. right. by right.
Qed.

(** Assignments to an array of 24 slots, read back. *)
Lemma dailyOf_slots (hours : list (nat * HistoricalReading)) :
  NoDup hours.*1 -> (forall h, h ∈ hours.*1 -> (h < 24)%nat) ->
  exists slots,
    dailyOf hours = DailyFile slots
    /\ length slots = 24%nat
    /\ forall h, (h < 24)%nat -> slots !! h = Some (Map_get hours h).
Proof.
  unfold dailyOf. intros Hnd Hlt. eexists. split; [done|].
  induction hours as [|[h0 r0] hours IH] using rev_ind.
  - split; [apply length_replicate|].
    intros h Hh. by apply lookup_replicate.
  - rewrite fmap_app in Hnd, Hlt. apply NoDup_app in Hnd as (Hnd & Hfresh & _).
    destruct IH as [Hlen Hslots]; [done| |].
    { intros h Hh. apply Hlt, elem_of_app. by left. }
    assert (Hh0 : (h0 < 24)%nat).
    { apply Hlt, elem_of_app. right. by left. }
    assert (Hnew : Map_get hours h0 = None).
    { apply Map_get_None. intros Hin. apply (Hfresh h0 Hin). by left. }
    rewrite foldl_snoc. cbn [fst snd].
    rewrite array_set_in_range by (rewrite Hlen; lia).
    split; [by rewrite length_insert|].
    intros h Hh. destruct (decide (h = h0)) as [->|Hne].
    + rewrite list_lookup_insert_eq by (rewrite Hlen; lia). f_equal.
      clear -Hnew. induction hours as [|[k v] hours IH]; simpl in *.
      * by rewrite decide_True.
      * destruct (decide (k = h0)); [done|]. by apply IH.
    + rewrite list_lookup_insert_ne by done. rewrite Hslots by done. f_equal.
      clear -Hne. induction hours as [|[k v] hours IH]; simpl in *.
      * by rewrite decide_False.
      * destruct (decide (k = h)); [done|]. by apply IH.
Qed.

(** The daily files written from the grouped readings. *)
Lemma writeDaily_lookup
    (dailyReadings : list (string * list (nat * HistoricalReading))) :
  forall dir : gmap string File,
  NoDup dailyReadings.*1 ->
  forall d,
    foldl (fun dir entry => <[entry.1 := dailyOf entry.2]> dir) dir
      dailyReadings !! d
    = match Map_get dailyReadings d with
      | Some hours => Some (dailyOf hours)
      | None => dir !! d
      end.
Proof.
  induction dailyReadings as [|[d0 hours0] rest IH]; intros dir Hnd d; [done|].
  simpl in *. apply NoDup_cons in Hnd as [Hfresh Hnd].
  rewrite IH by done. destruct (decide (d0 = d)) as [->|Hne].
  - apply Map_get_None in Hfresh. rewrite Hfresh. apply lookup_insert_eq.
  - destruct (Map_get rest d); [done|]. by apply lookup_insert_ne.
Qed.

Section ExtractionFacts.
Context `{DateParser} `{GitRepo}.

Lemma groupCommits_fold (commits : list CommitInfo) :
  forall dailyReadings,
  (forall c, c ∈ commits -> is_Some (ci_timestamp c ≫= Date_getTime)) ->
  groupCommits commits dailyReadings
  = Some (foldl groupStep dailyReadings (omap commitReading commits)).
Proof.
  induction commits as [|c commits IH]; intros acc Hok; [done|].
  simpl. unfold commitReading at 1.
  destruct (Hok c) as [t Ht]; [by left|]. rewrite Ht.
  assert (Hrest : forall c', c' ∈ commits ->
                             is_Some (ci_timestamp c' ≫= Date_getTime)).
  { intros c' Hc'. apply Hok. by right. }
  destruct (allAtCommit (hash c)) as [[data|]|]; simpl; by rewrite IH.
Qed.

Lemma groupCommits_None (commits : list CommitInfo) :
  forall dailyReadings c,
  c ∈ commits -> ci_timestamp c ≫= Date_getTime = None ->
  groupCommits commits dailyReadings = None.
Proof.
  induction commits as [|c0 commits IH]; intros acc c Hin Hbad;
    [by apply elem_of_nil in Hin|].
  simpl. apply elem_of_cons in Hin as [<-|Hin]; [by rewrite Hbad|].
  destruct (ci_timestamp c0 ≫= Date_getTime); [|done].
  destruct (allAtCommit (hash c0)) as [[data|]|]; by apply (IH _ c).
Qed.

Lemma groupStep_fold found :
  forall dailyReadings,
  let grouped := foldl groupStep dailyReadings found in
  (NoDup dailyReadings.*1 -> NoDup grouped.*1)
  /\ (forall d, d ∈ grouped.*1
                <-> d ∈ dailyReadings.*1 \/ exists c, c ∈ found /\ c.1.1 = d)
  /\ (forall d h,
        Map_get (default [] (Map_get grouped d)) h
        = match last (filter (slotAt d h) found) with
          | Some c => Some c.2
          | None => Map_get (default [] (Map_get dailyReadings d)) h
          end)
  /\ ((forall d hours, (d, hours) ∈ dailyReadings -> NoDup hours.*1) ->
      forall d hours, (d, hours) ∈ grouped -> NoDup hours.*1)
  /\ (forall d hours h, (d, hours) ∈ grouped -> h ∈ hours.*1 ->
        (exists hours0, (d, hours0) ∈ dailyReadings /\ h ∈ hours0.*1)
        \/ exists c, c ∈ found /\ c.1 = (d, h)).
Proof.
  induction found as [|[[d0 h0] r0] found IH]; intros acc grouped.
  - subst grouped. simpl. split; [done|]. split.
    + intros d. split; [by left|]. intros [?|(c & Hc & _)]; [done|].
      by apply elem_of_nil in Hc.
    + split; [done|]. split; [done|]. intros d hours h Hin Hh. left.
      by exists hours.
  - subst grouped. simpl foldl.
    destruct (IH (groupStep acc (d0, h0, r0)))
      as (Hnd & Hkeys & Hget & Hinner & Horigin).
    cbv zeta in Hnd, Hkeys, Hget, Hinner, Horigin.
    set (grouped := foldl groupStep (groupStep acc (d0, h0, r0)) found) in *.
    unfold groupStep in Hnd, Hkeys, Hget, Hinner, Horigin. simpl in *.
    split; [|split; [|split; [|split]]].
    + intros Hacc. apply Hnd. by apply Map_set_NoDup.
    + intros d. rewrite Hkeys, Map_set_keys. split.
      * intros [Hd|(c & Hc & Hd)].
        -- destruct (decide (d0 ∈ acc.*1)); [by left|].
           apply elem_of_app in Hd as [Hd|Hd]; [by left|].
           apply list_elem_of_singleton in Hd as ->. right.
           exists (d0, h0, r0). split; [by left|done].
        -- right. exists c. split; [by right|done].
      * intros [Hd|(c & Hc & Hd)].
        -- left. destruct (decide (d0 ∈ acc.*1)); [done|].
           apply elem_of_app. by left.
        -- apply elem_of_cons in Hc as [->|Hc].
           ++ simpl in Hd. subst d. left.
              destruct (decide (d0 ∈ acc.*1)); [done|].
              apply elem_of_app. right. by left.
           ++ right. by exists c.
    + intros d h. rewrite Hget.
      destruct (decide ((d0, h0) = (d, h))) as [[= -> ->]|Hne].
      * rewrite filter_cons_True by done. rewrite last_cons.
        destruct (last (filter (slotAt d h) found)) as [c|]; [done|].
        rewrite Map_get_set. rewrite decide_True by done. simpl.
        rewrite Map_get_set. by rewrite decide_True.
      * rewrite filter_cons_False by done.
        destruct (last (filter (slotAt d h) found)); [done|].
        rewrite Map_get_set. destruct (decide (d0 = d)) as [->|Hd]; [|done].
        simpl. rewrite Map_get_set. rewrite decide_False; [done|]. congruence.
    + intros Hacc. apply Hinner. intros d hours Hin.
      apply Map_set_In in Hin as [[-> ->]|Hin]; [|by apply (Hacc d)].
      apply Map_set_NoDup. destruct (Map_get acc d0) as [hs|] eqn:Hg; simpl.
      * apply Map_get_In in Hg. by apply (Hacc d0).
      * constructor.
    + intros d hours h Hin Hh.
      destruct (Horigin d hours h Hin Hh) as [(hours0 & Hin0 & Hh0)|(c & Hc & Hd)].
      * apply Map_set_In in Hin0 as [[-> ->]|Hin0].
        -- rewrite Map_set_keys in Hh0.
           destruct (decide (h0 ∈ (default [] (Map_get acc d0)).*1)) as [Hk|Hk].
           ++ left. destruct (Map_get acc d0) as [hs|] eqn:Hg; simpl in *.
              ** exists hs. split; [by apply Map_get_In|done].
              ** by apply elem_of_nil in Hh0.
           ++ apply elem_of_app in Hh0 as [Hh0|Hh0].
              ** left. destruct (Map_get acc d0) as [hs|] eqn:Hg; simpl in *.
                 --- exists hs. split; [by apply Map_get_In|done].
                 --- by apply elem_of_nil in Hh0.
              ** apply list_elem_of_singleton in Hh0 as ->. right.
                 exists (d0, h0, r0). split; [by left|done].
        -- left. by exists hours0.
      * right. exists c. split; [by right|done].
Qed.
End ExtractionFacts.

Section ExtractionTheorems.
Context `{DateParser} `{GitRepo}.

Lemma commitReading_placed (c : CommitInfo) d h r :
  commitReading c = Some (d, h, r) ->
  toISODate (hr_timestamp r) = d /\ getUTCHours (hr_timestamp r) = h
  /\ (h < 24)%nat.
Proof.
  unfold commitReading.
  destruct (ci_timestamp c ≫= Date_getTime) as [t|]; [|done].
  destruct (allAtCommit (hash c)) as [[data|]|]; try done.
  intros [= <- <- <-]. simpl. split; [done|]. split; [done|].
  apply getUTCHours_lt.
Qed.

(** X27: the extraction throws exactly when the time of some fog commit is
    no date.  When it returns, each date of a commit that could be read
    has a fresh file of 24 slots, where the slot of an hour holds the
    reading of the last commit of the log for that date and hour, and
    every reading lies at its own UTC date and hour; the files of other
    dates keep their content. *)
Theorem extractHistoricalData_slots (lines : list string)
    (history : option (gmap string File)) :
  let commits := getApiCommits lines in
  let found := omap commitReading commits in
  (extractHistoricalData lines history = None
   <-> exists c, c ∈ commits /\ ci_timestamp c ≫= Date_getTime = None)
  /\ (forall c, c ∈ found ->
        toISODate (hr_timestamp c.2) = c.1.1
        /\ getUTCHours (hr_timestamp c.2) = c.1.2)
  /\ forall dir', extractHistoricalData lines history = Some dir' ->
       forall d,
         ((forall c, c ∈ found -> c.1.1 <> d) ->
          dir' !! d = default ∅ history !! d)
         /\ ((exists c, c ∈ found /\ c.1.1 = d) ->
             exists hours,
               dir' !! d = Some (DailyFile hours)
               /\ length hours = 24%nat
               /\ forall h, (h < 24)%nat ->
                    hours !! h
                    = Some (snd <$> last (filter (slotAt d h) found))).
Proof.
  intros commits found.
  assert (Hplaced : forall c, c ∈ found ->
            toISODate (hr_timestamp c.2) = c.1.1
            /\ getUTCHours (hr_timestamp c.2) = c.1.2 /\ (c.1.2 < 24)%nat).
  { intros [[d h] r] Hc. apply list_elem_of_omap in Hc as (c & _ & Hc).
    by apply commitReading_placed in Hc. }
  split; [|split].
  - unfold extractHistoricalData. fold commits. split.
    + intros Hnone.
      destruct (decide (Forall (fun c => is_Some (ci_timestamp c
                                                    ≫= Date_getTime))
                          commits)) as [Hall|Hex].
      * rewrite Forall_forall in Hall.
        rewrite groupCommits_fold in Hnone by done. done.
      * apply not_Forall_Exists in Hex; [|apply _].
        apply Exists_exists in Hex as (c & Hc & Hbad). exists c.
        split; [done|]. simpl in Hbad.
        destruct (ci_timestamp c ≫= Date_getTime) eqn:Ht; [|done].
        destruct Hbad. by eexists.
    + intros (c & Hc & Hbad). by rewrite (groupCommits_None commits [] c).
  - intros c Hc. destruct (Hplaced c Hc) as (? & ? & _). done.
  - intros dir' Hex d. unfold extractHistoricalData in Hex. fold commits in Hex.
    apply bind_Some in Hex as (grouped & Hg & [= <-]).
    assert (Hok : forall c, c ∈ commits ->
                            is_Some (ci_timestamp c ≫= Date_getTime)).
    { intros c Hc. destruct (ci_timestamp c ≫= Date_getTime) eqn:Ht; [done|].
      by rewrite (groupCommits_None commits [] c) in Hg. }
    rewrite groupCommits_fold in Hg by done. injection Hg as <-.
    fold found.
    destruct (groupStep_fold found [])
      as (Hnd & Hkeys & Hget & Hinner & Horigin).
    cbv zeta in Hnd, Hkeys, Hget, Hinner, Horigin.
    set (grouped := foldl groupStep [] found) in *.
    specialize (Hnd (NoDup_nil_2)).
    rewrite writeDaily_lookup by done. split.
    + intros Hno. assert (Hd : d ∉ grouped.*1).
      { rewrite Hkeys. intros [Hd|(c & Hc & Hd)].
        - by apply elem_of_nil in Hd.
        - by apply (Hno c). }
      apply Map_get_None in Hd. by rewrite Hd.
    + intros Hsome. assert (Hd : d ∈ grouped.*1) by (apply Hkeys; by right).
      destruct (Map_get grouped d) as [hours|] eqn:Hgd;
        [|by apply Map_get_None in Hgd].
      assert (Hin : (d, hours) ∈ grouped) by by apply Map_get_In.
      destruct (dailyOf_slots hours) as (slots & -> & Hlen & Hslots).
      * apply (Hinner ltac:(by intros ? ? ?%elem_of_nil) d hours Hin).
      * intros h Hh.
        destruct (Horigin d hours h Hin Hh)
          as [(? & ?%elem_of_nil & _)|(c & Hc & Hc')]; [done|].
        destruct (Hplaced c Hc) as (_ & _ & Hlt). rewrite Hc' in Hlt. done.
      * exists slots. split; [done|]. split; [done|].
        intros h Hh. rewrite Hslots by done. f_equal.
        specialize (Hget d h). rewrite Hgd in Hget. simpl in Hget.
        rewrite Hget. by destruct (last _).
Qed.
End ExtractionTheorems.

(** ** The migration *)

Lemma migrateOne_lookup {A : Type} (api : gmap string A) (old new p : string) :
  old <> new ->
  migrateOne api (old, new) !! p
  = if decide (p = old) then None
    else if decide (p = new)
         then match api !! old with
              | Some content => Some content
              | None => api !! new
              end
         else api !! p.
Proof.
  intros Hne. unfold migrateOne. simpl.
  destruct (api !! old) as [content|] eqn:Hold.
  - destruct (decide (p = old)) as [->|Hp]; [by rewrite lookup_delete_eq|].
    rewrite lookup_delete_ne by done.
    destruct (decide (p = new)) as [->|Hp'].
    + by rewrite lookup_insert_eq.
    + by rewrite lookup_insert_ne.
  - destruct (decide (p = old)) as [->|Hp]; [done|].
    by destruct (decide (p = new)) as [->|Hp'].
Qed.

Lemma migrateCurrentEndpoints_lookup {A : Type} (api : gmap string A)
    (p : string) :
  migrateCurrentEndpoints api !! p
  = if decide (p = "golden-gate" \/ p = "downtown" \/ p = "all") then None
    else if decide (p = "regions/golden-gate")
         then match api !! "golden-gate" with
              | Some content => Some content
              | None => api !! p
              end
    else if decide (p = "regions/downtown")
         then match api !! "downtown" with
              | Some content => Some content
              | None => api !! p
              end
    else if decide (p = "regions/index")
         then match api !! "all" with
              | Some content => Some content
              | None => api !! p
              end
    else api !! p.
Proof.
  unfold migrateCurrentEndpoints, migrations. cbn [foldl].
  rewrite !migrateOne_lookup by done.
  repeat case_decide; subst; try done; try (intuition congruence).
Qed.

(** X28: the migration removes the three old files; each new path holds
    the content of its old file when there was one and its own content
    otherwise; no other path changes, and migrating twice is the same as
    migrating once. *)
Theorem migrateCurrentEndpoints_moves {A : Type} (api : gmap string A) :
  let migrated := migrateCurrentEndpoints api in
  (forall old new, (old, new) ∈ migrations ->
     migrated !! old = None
     /\ migrated !! new = match api !! old with
                          | Some content => Some content
                          | None => api !! new
                          end)
  /\ (forall path, path ∉ migrations.*1 -> path ∉ migrations.*2 ->
                   migrated !! path = api !! path)
  /\ migrateCurrentEndpoints migrated = migrated.
Proof.
  intros migrated. subst migrated. split; [|split].
  - intros old new Hin. rewrite !migrateCurrentEndpoints_lookup.
    unfold migrations in Hin.
    repeat (apply elem_of_cons in Hin as [[= -> ->]|Hin]);
      [| | |by apply elem_of_nil in Hin];
      split; repeat case_decide; try done; intuition congruence.
  - intros path Hold Hnew. rewrite migrateCurrentEndpoints_lookup.
    unfold migrations in Hold, Hnew. simpl in Hold, Hnew.
    rewrite !not_elem_of_cons in Hold, Hnew.
    repeat case_decide; try done; intuition congruence.
  - apply map_eq. intros path.
    rewrite (migrateCurrentEndpoints_lookup (migrateCurrentEndpoints api)).
    rewrite !(migrateCurrentEndpoints_lookup api "golden-gate").
    rewrite !(migrateCurrentEndpoints_lookup api "downtown").
    rewrite !(migrateCurrentEndpoints_lookup api "all").
    rewrite (migrateCurrentEndpoints_lookup api path).
    repeat case_decide; try done; intuition congruence.
Qed.

(** ** The binary64 comparison and analysis in general *)

#[local] Arguments Binary64.mul : simpl never.
#[local] Arguments Binary64.div : simpl never.
#[local] Arguments Binary64.sub : simpl never.
#[local] Arguments Binary64.ofInt : simpl never.
#[local] Arguments Binary64.value : simpl never.
#[local] Arguments Binary64.round : simpl never.

(** The score of [visible] of [total] landmarks, as the program computes
    it, is the rounded percentage for every total below 40. *)
Lemma score_below_40 (total visible : nat) :
  (total < 40)%nat -> (visible <= total)%nat -> (0 < total)%nat ->
  Binary64.value
    (Binary64.round
       (Binary64.mul (Binary64.div (Binary64.ofInt (Z.of_nat visible))
                        (Binary64.ofInt (Z.of_nat total)))
          (Binary64.ofInt 100)))
  = ofZ (round_half_up (inject_Z 100 * inject_Z (Z.of_nat visible)
                        / inject_Z (Z.of_nat total)))
  /\ 0 <= round_half_up (inject_Z 100 * inject_Z (Z.of_nat visible)
                          / inject_Z (Z.of_nat total)) <= 100.
Proof.
  intros Ht Hv Hpos.
  do 40 (destruct total as [|total];
         [ repeat (destruct visible as [|visible];
                   [ first [ exfalso; lia
                           | vm_compute; repeat split; discriminate ]
                   | try (exfalso; lia) ])
         | ]).
  exfalso; lia.
Qed.

Section Binary64Facts.
Context `{Collaborators}.


Lemma checkLandmarks_count buf lms : forall v0 d0 v d,
  Binary64.checkLandmarks buf lms v0 d0 = Some (v, d) ->
  v0 <= v <= v0 + Z.of_nat (length lms).
Proof.
  induction lms as [|lm lms IH]; intros v0 d0 v d Hc; simpl in Hc.
  - inversion Hc; subst. simpl. lia.
  - destruct (Binary64.checkLandmarkVisibility buf lm) as [[vis sim]|];
      [|done].
    apply IH in Hc. destruct vis; simpl length; lia.
Qed.

(** X30: with 1 to 39 landmarks the score that the analysis returns in
    binary64 is the rounded percentage of visible landmarks,
    round(100 * visible / total), a whole number from 0 to 100; the number
    of visible landmarks is at most the total. *)
Theorem analyzeFogLevel_score_below_40 loc now r :
  Binary64.analyzeFogLevel loc now = Some r ->
  0 < totalLandmarks r < 40 ->
  0 <= landmarksVisible r <= totalLandmarks r
  /\ visibilityScore r
     = ofZ (round_half_up (inject_Z 100 * inject_Z (landmarksVisible r)
                           / inject_Z (totalLandmarks r)))
  /\ 0 <= round_half_up (inject_Z 100 * inject_Z (landmarksVisible r)
                          / inject_Z (totalLandmarks r)) <= 100.
Proof.
  unfold Binary64.analyzeFogLevel. intros Ha Ht.
  apply bind_Some in Ha as (config & _ & Ha).
  apply bind_Some in Ha as (buf & _ & Ha).
  apply bind_Some in Ha as ([v d] & Hc & Ha).
  injection Ha as <-. simpl in *.
  apply checkLandmarks_count in Hc.
  split; [lia|].
  rewrite <- (Z2Nat.id v) by lia.
  apply score_below_40; lia.
Qed.
End Binary64Facts.

(** ** More properties on concrete inputs *)

Lemma analyzeFogLevel_no_landmarks_witness :
  exists r,
    @analyzeFogLevel (halfScene 0 0) "marina" 0 = Some r
    /\ visibilityScore r = NaN /\ fogLevel r = heavy.
Proof.
  destruct (@analyzeFogLevel (halfScene 0 0) "marina" 0) as [r|] eqn:Hr;
    [|by vm_compute in Hr].
  destruct (@analyzeFogLevel_no_landmarks (halfScene 0 0) "marina" 0 r Hr)
    as (Hs & Hf & _).
  - vm_compute in Hr. by inversion Hr.
  - by exists r.
Defined.

Lemma analyzeFogLevel_details_witness :
  exists r,
    @analyzeFogLevel (halfScene 1 2) "marina" 0 = Some r
    /\ region r = None /\ timestamp r = 0.
Proof.
  destruct (@analyzeFogLevel (halfScene 1 2) "marina" 0) as [r|] eqn:Hr;
    [|by vm_compute in Hr].
  destruct (@analyzeFogLevel_details (halfScene 1 2) "marina" 0 r Hr)
    as (config & buf & _ & _ & _ & Hreg & Ht & _).
  by exists r.
Defined.




Lemma updateHistoricalData_frame_witness :
  exists dir',
    @updateHistoricalData calendarDates firstCheck jan5check (Some januaryDir)
    = Some dir'
    /\ dir' !! "2024-01-01" = januaryDir !! "2024-01-01".
Proof.
  assert (exists dir1,
             @updateHistoricalData calendarDates firstCheck jan5check
               (Some januaryDir) = Some dir1)
    as [dir' Hu] by (vm_compute; eexists; reflexivity).
  exists dir'. split; [exact Hu|].
  destruct (@updateHistoricalData_frame calendarDates firstCheck jan5check
              (Some januaryDir) dir' Hu) as [Hframe _].
  assert (toISODate (hr_timestamp (newReading firstCheck jan5check))
          = "2024-01-05") as Hkey by (vm_compute; reflexivity).
  rewrite Hkey in Hframe. apply Hframe; discriminate.
Defined.

Lemma updateHistoricalData_recent_witness :
  exists dir' readings,
    @updateHistoricalData calendarDates firstCheck jan5check
      (Some (delete "2024-01-06" januaryDir)) = Some dir'
    /\ dir' !! "recent" = Some (RecentFile readings)
    /\ newReading firstCheck jan5check ∈ readings.
Proof.
  assert (exists dir1,
             @updateHistoricalData calendarDates firstCheck jan5check
               (Some (delete "2024-01-06" januaryDir)) = Some dir1)
    as [dir' Hu] by (vm_compute; eexists; reflexivity).
  destruct (@updateHistoricalData_recent calendarDates firstCheck jan5check
              (Some (delete "2024-01-06" januaryDir)) dir' Hu)
    as (readings & Hr & Hin & _).
  - split; [vm_compute; reflexivity|]. exists (hourOf 4 0).
    split; [vm_compute; reflexivity|]. vm_compute. discriminate.
  - intros f _ [content Hf] [Hk _].
    apply elem_of_map_to_list in Hf. vm_compute in Hf.
    repeat (apply elem_of_cons in Hf as [[= -> ->]|Hf]);
      try (apply elem_of_nil in Hf; destruct Hf); try discriminate Hk;
      vm_compute; eexists; reflexivity.
  - exists dir', readings.
    split; [exact Hu|]. split; [exact Hr|exact Hin].
Defined.

Lemma updateHistoricalData_corrupt_neighbour_witness :
  exists dir',
    @updateHistoricalData calendarDates firstCheck jan5check (Some januaryDir)
    = Some dir'
    /\ dir' !! "recent" = Some (RecentFile []).
Proof.
  assert (exists dir1,
             @updateHistoricalData calendarDates firstCheck jan5check
               (Some januaryDir) = Some dir1)
    as [dir' Hu] by (vm_compute; eexists; reflexivity).
  exists dir'. split; [exact Hu|].
  destruct (@updateHistoricalData_corrupt_neighbour calendarDates firstCheck
              jan5check (Some januaryDir) dir' "2024-01-06" Hu) as [Hr _].
  - vm_compute. discriminate.
  - eexists. vm_compute. reflexivity.
  - split; [vm_compute; reflexivity|]. exists (hourOf 5 0).
    split; [vm_compute; reflexivity|]. vm_compute. discriminate.
  - intros hours. vm_compute. discriminate.
  - rewrite Hr. vm_compute. reflexivity.
Defined.

Lemma updateHistoricalData_index_witness :
  exists dir' startDate endDate totalDays,
    @updateHistoricalData calendarDates firstCheck jan5check (Some januaryDir)
    = Some dir'
    /\ dir' !! "index" = Some (RangeFile startDate endDate totalDays jan5check)
    /\ String.le startDate "2024-01-05" /\ String.le "2024-01-05" endDate.
Proof.
  assert (exists dir1,
             @updateHistoricalData calendarDates firstCheck jan5check
               (Some januaryDir) = Some dir1)
    as [dir' Hu] by (vm_compute; eexists; reflexivity).
  destruct (@updateHistoricalData_index calendarDates firstCheck jan5check
              (Some januaryDir) dir' Hu)
    as (s & e & n & Hi & Hs & He & _); [vm_compute; reflexivity|].
  assert (toISODate (hr_timestamp (newReading firstCheck jan5check))
          = "2024-01-05") as Hkey by (vm_compute; reflexivity).
  rewrite Hkey in Hs, He. exists dir', s, e, n.
  split; [exact Hu|]. split; [exact Hi|]. split; [exact Hs|exact He].
Defined.

Lemma updateHistoricalData_wellPlaced_witness :
  exists dir' hours,
    wellPlaced (delete "2024-01-06" januaryDir)
    /\ @updateHistoricalData calendarDates firstCheck jan5check
         (Some (delete "2024-01-06" januaryDir)) = Some dir'
    /\ wellPlaced dir'
    /\ dir' !! "2024-01-05" = Some (DailyFile hours)
    /\ hours !! 3%nat = Some (Some (readingAt (hourOf 4 3) moderate 33))
    /\ hours !! 14%nat = Some (Some (newReading firstCheck jan5check)).
Proof.
  assert (Hwp : wellPlaced (delete "2024-01-06" januaryDir)).
  { intros f hours Hf. apply elem_of_map_to_list in Hf. vm_compute in Hf.
    repeat (apply elem_of_cons in Hf as [Hf|Hf];
            [inversion Hf; subst; clear Hf|]);
      try (apply elem_of_nil in Hf; destruct Hf);
      (split; [reflexivity|]); intros h r Hh;
      do 24 (destruct h as [|h];
             [simpl in Hh; try discriminate Hh; injection Hh as <-;
              split; vm_compute; reflexivity|]);
      simpl in Hh; discriminate Hh. }
  assert (exists dir1,
             @updateHistoricalData calendarDates firstCheck jan5check
               (Some (delete "2024-01-06" januaryDir)) = Some dir1)
    as [dir' Hu] by (vm_compute; eexists; reflexivity).
  pose proof (@updateHistoricalData_wellPlaced calendarDates firstCheck
                jan5check (Some (delete "2024-01-06" januaryDir)) dir' Hwp Hu)
    as Hwp'.
  assert (exists hours, dir' !! "2024-01-05" = Some (DailyFile hours)
            /\ hours !! 3%nat = Some (Some (readingAt (hourOf 4 3) moderate 33))
            /\ hours !! 14%nat = Some (Some (newReading firstCheck jan5check)))
    as (hours & Hd & H3 & H14).
  { vm_compute in Hu. injection Hu as <-. eexists.
    split; [vm_compute; reflexivity|]. split; vm_compute; reflexivity. }
  exists dir', hours. split; [exact Hwp|]. split; [exact Hu|].
  split; [exact Hwp'|]. split; [exact Hd|]. split; [exact H3|exact H14].
Defined.


Lemma cleanup_range_witness :
  exists dir1 startDate endDate totalDays,
    (@cleanup calendarDates jan2026 (Some januaryDir)).1 = Some dir1
    /\ dir1 !! "range"
       = Some (RangeFile startDate endDate totalDays jan2026)
    /\ dir1 !! "2024-01-01" = None.
Proof.
  assert (exists dir1,
             (@cleanup calendarDates jan2026 (Some januaryDir)).1 = Some dir1)
    as [dir1 Hc] by (vm_compute; eexists; reflexivity).
  destruct (@cleanup_range calendarDates jan2026 januaryDir dir1 Hc)
    as [_ Hsome].
  destruct (Hsome "2024-01-05") as (s & e & Hr & _).
  - eexists. vm_compute. reflexivity.
  - split; [vm_compute; reflexivity|].
    intros [_ (t & Ht & Hlt)]. vm_compute in Ht. inversion Ht; subst t.
    vm_compute in Hlt. discriminate Hlt.
  - exists dir1, s, e. eexists. split; [exact Hc|]. split; [exact Hr|].
    vm_compute in Hc. inversion Hc. reflexivity.
Defined.


Lemma publishRegions_undefined_witness :
  exists dir',
    publishRegions "index"
      (firstCheck ++ unplacedResult jan5check :: secondCheck) ∅
    = (dir', false)
    /\ dir' !! "index" = None
    /\ dir' !! "golden-gate"
       = Some (StatusFile
                 (statusOf (resultAt (hourOf 4 14 + 2400000) "golden-gate"
                              heavy 0))).
Proof.
  destruct (publishRegions_undefined "index" firstCheck secondCheck
              (unplacedResult jan5check) ∅ eq_refl)
    as (dir' & Hp & Hk).
  - intros r Hr. unfold firstCheck in Hr.
    apply list_elem_of_singleton in Hr as ->. reflexivity.
  - exists dir'. split; [done|]. split.
    + rewrite (Hk "index"). rewrite decide_False; [done|].
      unfold firstCheck. simpl. intros Hin.
      by apply list_elem_of_singleton in Hin.
    + rewrite (Hk "golden-gate"). rewrite decide_True; [done|].
      unfold firstCheck. simpl. by left.
Defined.

Lemma writeResults_outcome_witness :
  (@writeResults calendarDates firstCheck jan5check
     {| regionsDir := ∅; historyDir := Some januaryDir |}).2 = true
  /\ historyDir
       (@writeResults calendarDates
          (firstCheck ++ [unplacedResult jan5check]) jan5check
          {| regionsDir := ∅; historyDir := Some januaryDir |}).1
     = Some januaryDir.
Proof.
  split.
  - refine (proj2 (proj1 (@writeResults_outcome calendarDates firstCheck
                            jan5check
                            {| regionsDir := ∅;
                               historyDir := Some januaryDir |} _)) _).
    + intros r name Hr Hname. unfold firstCheck in Hr.
      apply list_elem_of_singleton in Hr as ->.
      injection Hname as <-. reflexivity.
    + split.
      * intros r Hr. unfold firstCheck in Hr.
        apply list_elem_of_singleton in Hr as ->. eexists. reflexivity.
      * intros content Hc. vm_compute in Hc. injection Hc as <-.
        right. eexists. reflexivity.
  - refine (proj1 (proj2 (@writeResults_outcome calendarDates
                            (firstCheck ++ [unplacedResult jan5check])
                            jan5check
                            {| regionsDir := ∅;
                               historyDir := Some januaryDir |} _)) _).
    + intros r name Hr Hname. unfold firstCheck in Hr.
      apply elem_of_app in Hr as [Hr|Hr];
        apply list_elem_of_singleton in Hr as ->.
      * injection Hname as <-. reflexivity.
      * discriminate Hname.
    + exists (unplacedResult jan5check). split; [|reflexivity].
      apply elem_of_app. right. apply list_elem_of_singleton. reflexivity.
Defined.

Lemma parseCommitLine_fields_witness :
  parseCommitLine "4f2a9c1|2024-01-05T14:05:00Z|Update fog conditions | auto"
  = {| hash := "4f2a9c1"; ci_timestamp := Some "2024-01-05T14:05:00Z";
       message := "Update fog conditions | auto" |}.
Proof.
  apply (parseCommitLine_fields "4f2a9c1" "2024-01-05T14:05:00Z"
           "Update fog conditions | auto").
  - intros Hin. vm_compute in Hin.
    repeat (apply elem_of_cons in Hin as [Hin|Hin]; [discriminate Hin|]).
    by apply elem_of_nil in Hin.
  - intros Hin. vm_compute in Hin.
    repeat (apply elem_of_cons in Hin as [Hin|Hin]; [discriminate Hin|]).
    by apply elem_of_nil in Hin.
Defined.


Lemma analyzeFogLevel_score_below_40_witness :
  exists r,
    @Binary64.analyzeFogLevel (halfScene 1 2) "marina" 0 = Some r
    /\ landmarksVisible r = 1 /\ totalLandmarks r = 3
    /\ visibilityScore r = ofZ 33.
Proof.
  destruct (@Binary64.analyzeFogLevel (halfScene 1 2) "marina" 0)
    as [r|] eqn:Hr; [|vm_compute in Hr; discriminate Hr].
  assert (Hv : landmarksVisible r = 1 /\ totalLandmarks r = 3).
  { vm_compute in Hr. injection Hr as <-. split; reflexivity. }
  destruct Hv as [Hv Ht].
  destruct (@analyzeFogLevel_score_below_40 (halfScene 1 2) "marina" 0 r Hr)
    as (_ & Hs & _).
  - rewrite Ht. lia.
  - exists r. split; [reflexivity|]. split; [exact Hv|]. split; [exact Ht|].
    rewrite Hs, Hv, Ht. vm_compute. reflexivity.
Defined.
